(** * Storyboard indexing and semantic retrieval pipeline

    A shallow embedding of the four Python scripts of the repository

    - [frontend/src/Projects/ai-storyboard-converter/convert_storyboards.py]
      (document extraction, structured conversion, batch driver),
    - [backend/backend/migrate_embeddings.py] (the reindexing job),
    - [backend_backup_v2/migrate_embedding.py] (the column migration),
    - [backend_backup_v2/test_vector_search.py] (the similarity query),

    followed by the properties of the design document that can be stated
    over it.

    Conventions.  Python text is a [string] holding the bytes of its UTF-8
    encoding; where Python counts characters ([s[:n]]) the model counts the
    bytes that start one.  A Python
    exception is a value of [exn] carried by [Raise].  The external services
    (generative model, embedding model) are oracles passed as arguments; an
    oracle answering [None] is a call that raised.  Numbers stored in the
    database are rationals (every binary float is one); the cosine distance
    is the exact real number the formula denotes, so rounding is not part of
    the model. *)

From Stdlib Require Import String Ascii List ZArith QArith Reals Lia Lra.
From Stdlib Require Import Permutation Sorted.
From stdpp Require Import gmap strings sorting.
Import ListNotations.

Open Scope string_scope.
Set Warnings "-register-all,-abstract-large-number".

(* ===================================================================== *)
(** * Part I.  The program                                                *)
(* ===================================================================== *)

(** ** Python results *)

Inductive exn : Type :=
| JSONDecodeError
| AttributeError
| FileError          (* PdfReader / Presentation / open().read() failed *)
| ServiceError       (* the remote model call raised *)
| DatabaseError      (* psycopg.Error *)
| TypeError          (* a format the value does not support *)
| KeyboardInterrupt.

Inductive result (A : Type) : Type :=
| Ok (a : A)
| Raise (e : exn).
Arguments Ok {A} a.
Arguments Raise {A} e.

(** ** Text primitives ([str] methods and [os.path]) *)

Module Text.

Definition chars (s : string) : list ascii := list_ascii_of_string s.
Definition text (l : list ascii) : string := string_of_list_ascii l.

Definition mem (c : ascii) (cs : list ascii) : bool :=
  existsb (Ascii.eqb c) cs.

Fixpoint lstrip (cs l : list ascii) : list ascii :=
  match l with
  | c :: l' => if mem c cs then lstrip cs l' else l
  | [] => []
  end.

Definition rstrip (cs l : list ascii) : list ascii :=
  rev (lstrip cs (rev l)).

(** [s.strip(chars)]: drop from both ends every character of [chars]. *)
Definition strip (cs : string) (s : string) : string :=
  text (rstrip (chars cs) (lstrip (chars cs) (chars s))).

(** A byte that continues a character of a UTF-8 text. *)
Definition is_continuation (c : ascii) : bool :=
  (128 <=? nat_of_ascii c)%nat && (nat_of_ascii c <? 192)%nat.

(** The bytes of the first [n] characters: a byte that starts a character
    is taken while characters remain to be taken, a byte that continues
    one goes with the character it continues. *)
Fixpoint take_chars (n : nat) (l : list ascii) : list ascii :=
  match l with
  | [] => []
  | c :: l' =>
      if is_continuation c then c :: take_chars n l'
      else match n with
           | O => []
           | S n' => c :: take_chars n' l'
           end
  end.

(** [len(s)]: the number of characters. *)
Definition char_count (l : list ascii) : nat :=
  length (List.filter (fun c => negb (is_continuation c)) l).

(** [s[:n]] for [n >= 0]: the first [n] characters. *)
Definition prefix (n : nat) (s : string) : string :=
  text (take_chars n (chars s)).

(** [s.endswith(suffix)]. *)
Definition endswith (s suffix : string) : bool :=
  let n := String.length s in
  let m := String.length suffix in
  (m <=? n)%nat && String.eqb (substring (n - m) m s) suffix.

(** Index of the last ["."] of a list of characters, if any. *)
Fixpoint rfind_dot (l : list ascii) (i : nat) (last : option nat)
  : option nat :=
  match l with
  | [] => last
  | c :: l' =>
      rfind_dot l' (S i) (if Ascii.eqb c "." then Some i else last)
  end.

(** [os.path.splitext(p)[0]] for a path without separator (a name
    returned by [os.listdir]): cut at the last dot unless only dots
    precede it. *)
Definition splitext_root (p : string) : string :=
  match rfind_dot (chars p) 0 None with
  | None => p
  | Some d =>
      if forallb (Ascii.eqb ".") (firstn d (chars p)) then p
      else substring 0 d p
  end.

(** [os.path.join(a, b)] on POSIX. *)
Definition path_join (a b : string) : string :=
  if String.prefix "/" b then b
  else if (String.eqb a EmptyString || endswith a "/")%bool then a ++ b
  else a ++ "/" ++ b.

End Text.

(** ** JSON values and [json.loads] *)

Module Json.

Inductive json : Type :=
| JNull
| JBool (b : bool)
| JNum (q : Q)
| JNaN
| JInf (negative : bool)
| JStr (s : string)
| JArr (l : list json)
| JObj (members : list (string * json)).

(** Python truth value of a decoded JSON object ([if not x]). *)
Definition truthy (v : json) : bool :=
  match v with
  | JNull => false
  | JBool b => b
  | JNum q => negb (Qeq_bool q 0)
  | JNaN | JInf _ => true
  | JStr s => negb (String.eqb s EmptyString)
  | JArr l => match l with [] => false | _ => true end
  | JObj m => match m with [] => false | _ => true end
  end.

(** [d[k] = v] on a [dict]: an existing key keeps its position. *)
Fixpoint dict_set (k : string) (v : json) (d : list (string * json))
  : list (string * json) :=
  match d with
  | [] => [(k, v)]
  | (k', v') :: d' =>
      if String.eqb k k' then (k, v) :: d' else (k', v') :: dict_set k v d'
  end.

Definition dict_of_pairs (ps : list (string * json)) : list (string * json) :=
  fold_left (fun d kv => dict_set (fst kv) (snd kv) d) ps [].

Fixpoint dict_lookup (k : string) (d : list (string * json)) : option json :=
  match d with
  | [] => None
  | (k', v) :: d' => if String.eqb k k' then Some v else dict_lookup k d'
  end.

(** [obj.get(key, default)]; only a [dict] has the method. *)
Definition get (obj : json) (key : string) (default : json) : result json :=
  match obj with
  | JObj d => Ok (match dict_lookup key d with Some v => v | None => default end)
  | _ => Raise AttributeError
  end.

(** *** Lexer *)

Local Open Scope nat_scope.

Inductive token : Type :=
| TLBrace | TRBrace | TLBracket | TRBracket | TColon | TComma
| TString (s : string)
| TWord (w : string).

Definition code (c : ascii) : nat := nat_of_ascii c.

Definition is_ws (c : ascii) : bool :=
  (code c =? 32) || (code c =? 9) || (code c =? 10) || (code c =? 13).

Definition is_digit (c : ascii) : bool :=
  (48 <=? code c) && (code c <=? 57).

Definition is_letter (c : ascii) : bool :=
  ((65 <=? code c) && (code c <=? 90)) || ((97 <=? code c) && (code c <=? 122)).

Definition is_word (c : ascii) : bool :=
  is_digit c || is_letter c || Ascii.eqb c "+" || Ascii.eqb c "-"
  || Ascii.eqb c ".".

Definition punct (c : ascii) : option token :=
  if Ascii.eqb c "{" then Some TLBrace
  else if Ascii.eqb c "}" then Some TRBrace
  else if Ascii.eqb c "[" then Some TLBracket
  else if Ascii.eqb c "]" then Some TRBracket
  else if Ascii.eqb c ":" then Some TColon
  else if Ascii.eqb c "," then Some TComma
  else None.

Definition hex_val (c : ascii) : option nat :=
  if is_digit c then Some (code c - 48)
  else if (65 <=? code c) && (code c <=? 70) then Some (code c - 55)
  else if (97 <=? code c) && (code c <=? 102) then Some (code c - 87)
  else None.

(** UTF-8 bytes of a code point below 65536, most significant first. *)
Definition utf8 (cp : nat) : list ascii :=
  if cp <? 128 then [ascii_of_nat cp]
  else if cp <? 2048 then
    [ascii_of_nat (192 + cp / 64); ascii_of_nat (128 + cp mod 64)]
  else
    [ascii_of_nat (224 + cp / 4096);
     ascii_of_nat (128 + (cp / 64) mod 64);
     ascii_of_nat (128 + cp mod 64)].

(** Scanner modes.  Accumulators hold the characters read so far, last
    one first. *)
Inductive mode : Type :=
| Idle
| InWord (acc : list ascii)
| InStr (acc : list ascii)
| InEsc (acc : list ascii)
| InUni (acc : list ascii) (seen : nat) (value : nat).

Record lexer : Type := Lexer { toks : list token; md : mode }.

Definition word_token (acc : list ascii) : token :=
  TWord (Text.text (rev acc)).

(** A character met outside a string, after a pending word (if any) has
    been emitted as [ts]. *)
Definition idle_step (ts : list token) (c : ascii) : option lexer :=
  if is_ws c then Some (Lexer ts Idle)
  else match punct c with
       | Some t => Some (Lexer (t :: ts) Idle)
       | None =>
           if Ascii.eqb c "034" then Some (Lexer ts (InStr []))
           else if is_word c then Some (Lexer ts (InWord [c]))
           else None
       end.

Definition escape (c : ascii) : option ascii :=
  if Ascii.eqb c "034" then Some "034"%char
  else if Ascii.eqb c "\" then Some "\"%char
  else if Ascii.eqb c "/" then Some "/"%char
  else if Ascii.eqb c "b" then Some "008"%char
  else if Ascii.eqb c "f" then Some "012"%char
  else if Ascii.eqb c "n" then Some "010"%char
  else if Ascii.eqb c "r" then Some "013"%char
  else if Ascii.eqb c "t" then Some "009"%char
  else None.

Definition step (st : lexer) (c : ascii) : option lexer :=
  match md st with
  | Idle => idle_step (toks st) c
  | InWord acc =>
      if is_word c then Some (Lexer (toks st) (InWord (c :: acc)))
      else idle_step (word_token acc :: toks st) c
  | InStr acc =>
      if Ascii.eqb c "034" then
        Some (Lexer (TString (Text.text (rev acc)) :: toks st) Idle)
      else if Ascii.eqb c "\" then Some (Lexer (toks st) (InEsc acc))
      else if code c <? 32 then None
      else Some (Lexer (toks st) (InStr (c :: acc)))
  | InEsc acc =>
      if Ascii.eqb c "u" then Some (Lexer (toks st) (InUni acc 0 0))
      else match escape c with
           | Some d => Some (Lexer (toks st) (InStr (d :: acc)))
           | None => None
           end
  | InUni acc seen value =>
      match hex_val c with
      | Some h =>
          let value' := 16 * value + h in
          if seen =? 3 then
            Some (Lexer (toks st) (InStr (rev (utf8 value') ++ acc)))
          else Some (Lexer (toks st) (InUni acc (S seen) value'))
      | None => None
      end
  end.

Definition feed (st : option lexer) (c : ascii) : option lexer :=
  match st with
  | Some s => step s c
  | None => None
  end.

Definition finish (st : option lexer) : option (list token) :=
  match st with
  | Some (Lexer ts Idle) => Some (rev ts)
  | Some (Lexer ts (InWord acc)) => Some (rev (word_token acc :: ts))
  | _ => None
  end.

Definition scan (st : option lexer) (l : list ascii) : option lexer :=
  fold_left feed l st.

Definition lex (l : list ascii) : option (list token) :=
  finish (scan (Some (Lexer [] Idle)) l).

(** *** Number and literal words *)

Fixpoint span_digits (l : list ascii) : list ascii * list ascii :=
  match l with
  | c :: l' =>
      if is_digit c then
        let (ds, r) := span_digits l' in (c :: ds, r)
      else ([], l)
  | [] => ([], [])
  end.

Definition digits_value (ds : list ascii) : Z :=
  fold_left (fun acc c => 10 * acc + Z.of_nat (code c - 48))%Z ds 0%Z.

Definition int_part_ok (ds : list ascii) : bool :=
  match ds with
  | [] => false
  | [_] => true
  | c :: _ => negb (Ascii.eqb c "0")
  end.

(** The exponent part: empty, or [e]/[E], an optional sign and digits. *)
Definition exponent (l : list ascii) : option Z :=
  match l with
  | [] => Some 0%Z
  | e :: r =>
      if Ascii.eqb e "e" || Ascii.eqb e "E" then
        let '(neg, r') :=
          match r with
          | s :: r' =>
              if Ascii.eqb s "-" then (true, r')
              else if Ascii.eqb s "+" then (false, r')
              else (false, r)
          | [] => (false, r)
          end in
        match span_digits r' with
        | ((_ :: _) as ds, []) =>
            Some (if neg then - digits_value ds else digits_value ds)%Z
        | _ => None
        end
      else None
  end.

(** A JSON number: an optional minus sign; an integer part that is a
    single zero or starts with a non-zero digit; an optional fraction (a
    dot and at least one digit); an optional exponent. *)
Definition number (l : list ascii) : option Q :=
  let '(neg, l1) :=
    match l with
    | s :: r => if Ascii.eqb s "-" then (true, r) else (false, l)
    | [] => (false, l)
    end in
  let (ds, l2) := span_digits l1 in
  if int_part_ok ds then
    let frac :=
      match l2 with
      | d :: r =>
          if Ascii.eqb d "." then
            match span_digits r with
            | ((_ :: _) as fs, l3) => Some (fs, l3)
            | _ => None
            end
          else Some ([], l2)
      | [] => Some ([], l2)
      end in
    match frac with
    | Some (fs, l3) =>
        match exponent l3 with
        | Some e =>
            let m := digits_value (ds ++ fs) in
            let m := if neg then (- m)%Z else m in
            Some (Qred (inject_Z m
                        * Qpower (10 # 1) (e - Z.of_nat (length fs))))
        | None => None
        end
    | None => None
    end
  else None.

Definition word_value (w : string) : option json :=
  if String.eqb w "true" then Some (JBool true)
  else if String.eqb w "false" then Some (JBool false)
  else if String.eqb w "null" then Some JNull
  else if String.eqb w "NaN" then Some JNaN
  else if String.eqb w "Infinity" then Some (JInf false)
  else if String.eqb w "-Infinity" then Some (JInf true)
  else match number (Text.chars w) with
       | Some q => Some (JNum q)
       | None => None
       end.

(** *** Parser *)

Fixpoint parse_value (fuel : nat) (ts : list token)
  : option (json * list token) :=
  match fuel with
  | O => None
  | S fuel' =>
      match ts with
      | TWord w :: r =>
          match word_value w with
          | Some v => Some (v, r)
          | None => None
          end
      | TString s :: r => Some (JStr s, r)
      | TLBracket :: TRBracket :: r => Some (JArr [], r)
      | TLBracket :: r => parse_elements fuel' r []
      | TLBrace :: TRBrace :: r => Some (JObj [], r)
      | TLBrace :: r => parse_members fuel' r []
      | _ => None
      end
  end
with parse_elements (fuel : nat) (ts : list token) (acc : list json)
  : option (json * list token) :=
  match fuel with
  | O => None
  | S fuel' =>
      match parse_value fuel' ts with
      | Some (v, TComma :: r) => parse_elements fuel' r (v :: acc)
      | Some (v, TRBracket :: r) => Some (JArr (rev (v :: acc)), r)
      | _ => None
      end
  end
with parse_members (fuel : nat) (ts : list token)
                   (acc : list (string * json))
  : option (json * list token) :=
  match fuel with
  | O => None
  | S fuel' =>
      match ts with
      | TString k :: TColon :: r =>
          match parse_value fuel' r with
          | Some (v, TComma :: r') => parse_members fuel' r' ((k, v) :: acc)
          | Some (v, TRBrace :: r') =>
              Some (JObj (dict_of_pairs (rev ((k, v) :: acc))), r')
          | _ => None
          end
      | _ => None
      end
  end.

(** One JSON document and nothing else. *)
Definition parse (ts : list token) : option json :=
  match parse_value (2 * length ts + 1) ts with
  | Some (v, []) => Some v
  | _ => None
  end.

(** [json.loads(s)]: [None] stands for [json.JSONDecodeError]. *)
Definition loads (s : string) : option json :=
  match lex (Text.chars s) with
  | Some ts => parse ts
  | None => None
  end.

End Json.

Import Json.

(** ** convert_storyboards.py *)

Module Converter.

Definition nl : string := String "010" EmptyString.

(** What the extraction libraries see in a file.  A shape carries
    [Some t] when [hasattr(shape, "text")] holds and [shape.text] is [t];
    a PDF page carries what [page.extract_text()] returns. *)
Record Shape : Type := { shape_text : option string }.
Definition Slide : Type := list Shape.
Definition Presentation : Type := list Slide.

Inductive FileData : Type :=
| PdfFile (pages : list (option string))
| PptxFile (prs : Presentation)
| TextFile (s : string)
| Unreadable.

Definition page_text (p : option string) : string :=
  match p with Some t => t | None => EmptyString end.

Definition extract_text_from_pdf (data : FileData) : result string :=
  match data with
  | PdfFile pages => Ok (String.concat nl (map page_text pages))
  | _ => Raise FileError
  end.

(** The body of the inner loop: [text += shape.text + "\n"]. *)
Definition add_shape (text : string) (shape : Shape) : string :=
  match shape_text shape with
  | Some t => text ++ (t ++ nl)
  | None => text
  end.

Definition add_slide (text : string) (slide : Slide) : string :=
  fold_left add_shape slide text.

Definition extract_text_from_pptx (data : FileData) : result string :=
  match data with
  | PptxFile prs => Ok (fold_left add_slide prs EmptyString)
  | _ => Raise FileError
  end.

(** [open(path, "r", encoding="utf-8").read()]. *)
Definition read_text (data : FileData) : result string :=
  match data with
  | TextFile s => Ok s
  | _ => Raise FileError
  end.

(** The characters given to [strip]: backtick, space, newline. *)
Definition fence_chars : string := "` " ++ nl.

(** The [try]/[except] around [json.loads].  The first component lists
    the texts handed to [json.loads], in order. *)
Definition decode_reply (json_response : string)
  : list string * result json :=
  match loads json_response with
  | Some v => ([json_response], Ok v)
  | None =>
      let json_response' := Text.strip fence_chars json_response in
      ([json_response; json_response'],
       match loads json_response' with
       | Some v => Ok v
       | None => Raise JSONDecodeError
       end)
  end.

(** The generative service: the reply to the fixed instruction template
    followed by the given text, or [None] when the call raises. *)
Definition Gemini : Type := string -> option string.

Definition convert_to_json_with_gemini (gemini : Gemini)
           (storyboard_text : string) : list string * result json :=
  match gemini (Text.prefix 25000 storyboard_text) with
  | Some json_response => decode_reply json_response
  | None => ([], Raise ServiceError)
  end.

(** A file of the output folder: a JSON document written whole, or what
    is left of a file that [open] emptied when [json.dump] raised before
    its end. *)
Inductive Stored : Type :=
| Whole (data : json)
| Cut.

(** What [open(path, "w")] followed by [json.dump(data, out_f)] does. *)
Inductive Write : Type :=
| Saved         (* the file holds the document *)
| OpenRaises    (* [open] raised: no file is touched *)
| DumpRaises.   (* the file was opened, so emptied; [json.dump] raised *)

(** The file system under the output folder, by path and document. *)
Definition Disk : Type := string -> json -> Write.

(** The state of a batch: the files of the output folder by path, the
    names reported as failed, and the exception that ended the run, if
    one did. *)
Record Batch : Type := {
  written : gmap string Stored;
  failed : list string;
  raised : option exn
}.

Definition extract (filename : string) (data : FileData)
  : option (result string) :=
  if Text.endswith filename ".pdf" then Some (extract_text_from_pdf data)
  else if Text.endswith filename ".pptx" then Some (extract_text_from_pptx data)
  else if Text.endswith filename ".txt" then Some (read_text data)
  else None.

Definition output_path (output_folder filename : string) : string :=
  Text.path_join output_folder (Text.splitext_root filename ++ ".json").

(** The [for] loop of [process_folder] over the names [os.listdir]
    returned, each with the data of its file. *)
Fixpoint process_files (gemini : Gemini) (disk : Disk)
         (output_folder : string)
         (listing : list (string * FileData)) (b : Batch) : Batch :=
  match listing with
  | [] => b
  | (filename, data) :: rest =>
      match extract filename data with
      | None => process_files gemini disk output_folder rest b
      | Some (Raise e) =>
          {| written := written b; failed := failed b; raised := Some e |}
      | Some (Ok text) =>
          match snd (convert_to_json_with_gemini gemini text) with
          | Ok json_data =>
              let path := output_path output_folder filename in
              match disk path json_data with
              | Saved =>
                  process_files gemini disk output_folder rest
                    {| written := <[path := Whole json_data]> (written b);
                       failed := failed b;
                       raised := raised b |}
              | OpenRaises =>
                  process_files gemini disk output_folder rest
                    {| written := written b;
                       failed := failed b ++ [filename];
                       raised := raised b |}
              | DumpRaises =>
                  process_files gemini disk output_folder rest
                    {| written := <[path := Cut]> (written b);
                       failed := failed b ++ [filename];
                       raised := raised b |}
              end
          | Raise _ =>
              process_files gemini disk output_folder rest
                {| written := written b;
                   failed := failed b ++ [filename];
                   raised := raised b |}
          end
      end
  end.

Definition process_folder (gemini : Gemini) (disk : Disk)
           (input_folder : list (string * FileData))
           (output_folder : string) (existing : gmap string Stored) : Batch :=
  process_files gemini disk output_folder input_folder
    {| written := existing; failed := []; raised := None |}.

End Converter.

(** ** The [storyboards] table *)

Module Store.

Definition vector : Type := list Q.

(** Modelled from the spec: the declaration of the [storyboards] table is
    not part of the scripts.  Its columns are those of the
    StoryboardRecord of the design document: [id], [content], the
    nullable [embedding], and [embeddingSchemeVersion]. *)
Record StoryboardRecord : Type := {
  id : Z;
  content : json;
  embedding : option vector;
  embeddingSchemeVersion : option string
}.

(** The table: the declared dimension [n] of the column type [vector(n)]
    ([None] for an unconstrained [vector] column) and the rows. *)
Record Table : Type := {
  dimension : option nat;
  rows : list StoryboardRecord
}.

(** Input of a [vector] value for the column: at least one component,
    and the declared number of them when one is declared. *)
Definition accepts (dim : option nat) (v : vector) : bool :=
  negb (length v =? 0)%nat
  && match dim with
     | Some n => (length v =? n)%nat
     | None => true
     end.

Definition set_embedding (v : vector) (r : StoryboardRecord)
  : StoryboardRecord :=
  {| id := id r;
     content := content r;
     embedding := Some v;
     embeddingSchemeVersion := embeddingSchemeVersion r |}.

(** [UPDATE storyboards SET embedding = %s WHERE id = %s;] *)
Definition update_embedding (v : vector) (rid : Z) (t : Table)
  : result Table :=
  if accepts (dimension t) v then
    Ok {| dimension := dimension t;
          rows := map (fun r => if (id r =? rid)%Z then set_embedding v r
                                else r) (rows t) |}
  else Raise DatabaseError.

Definition fits (n : nat) (r : StoryboardRecord) : bool :=
  match embedding r with
  | Some v => (length v =? n)%nat
  | None => true
  end.

(** migrate_embedding.py:
    [ALTER TABLE storyboards ALTER COLUMN embedding TYPE vector(1536)
     USING embedding::vector;] and the commit.  A stored vector of
    another length makes the statement fail and nothing is changed. *)
Definition migrate_embedding_column (t : Table) : result Table :=
  if forallb (fits 1536) (rows t) then
    Ok {| dimension := Some 1536%nat; rows := rows t |}
  else Raise DatabaseError.

End Store.

Import Store.

(** ** migrate_embeddings.py *)

Module Reindex.

(** The embedding service on one input, [None] when the call raises. *)
Definition Embedder : Type := json -> option vector.

(** [create_embedding(text)]: the inputs sent to the service, and the
    vector of the reply. *)
Definition create_embedding (service : Embedder) (text : json)
  : list json * result vector :=
  ([text],
   match service text with
   | Some v => Ok v
   | None => Raise ServiceError
   end).

(** The state of the loop: the table as the open transaction sees it,
    the inputs sent to the service so far, and the identifiers updated and
    skipped so far. *)
Record Progress : Type := {
  working : Table;
  sent : list json;
  updated : list Z;
  skipped : list Z
}.

(** The [for] loop over the fetched [(id, content)] pairs.  [stop] is the
    number of records after which the process is interrupted, if it
    is. *)
Fixpoint reindex_loop (service : Embedder) (stop : option nat)
         (storyboards_to_update : list (Z * json)) (p : Progress)
  : Progress * option exn :=
  match stop with
  | Some O => (p, Some KeyboardInterrupt)
  | _ =>
      match storyboards_to_update with
      | [] => (p, None)
      | (storyboard_id, storyboard_content) :: rest =>
          let stop' := option_map Nat.pred stop in
          match get storyboard_content "moduleName" (JStr EmptyString) with
          | Raise e => (p, Some e)
          | Ok text_to_embed =>
              if negb (truthy text_to_embed) then
                reindex_loop service stop' rest
                  {| working := working p;
                     sent := sent p;
                     updated := updated p;
                     skipped := skipped p ++ [storyboard_id] |}
              else
                let (inputs, reply) := create_embedding service text_to_embed in
                let p' := {| working := working p;
                             sent := sent p ++ inputs;
                             updated := updated p;
                             skipped := skipped p |} in
                match reply with
                | Raise e => (p', Some e)
                | Ok new_embedding =>
                    match update_embedding new_embedding storyboard_id
                                           (working p') with
                    | Raise e => (p', Some e)
                    | Ok t =>
                        reindex_loop service stop' rest
                          {| working := t;
                             sent := sent p';
                             updated := updated p' ++ [storyboard_id];
                             skipped := skipped p' |}
                    end
                end
          end
      end
  end.

(** What a run leaves behind. *)
Record Run : Type := {
  table : Table;           (* the table once the connection is closed *)
  requests : list json;    (* the inputs sent to the embedding service *)
  reported : list Z;       (* identifiers printed as updated *)
  passed : list Z;         (* identifiers printed as skipped *)
  outcome : option exn     (* the exception that ended the script *)
}.

(** The script: one connection, one transaction.  The [with
    psycopg.connect(...)] block commits when its body ends and rolls back
    when an exception leaves it. *)
Definition migrate_embeddings (service : Embedder) (stop : option nat)
           (t : Table) : Run :=
  let storyboards_to_update := map (fun r => (id r, content r)) (rows t) in
  let (p, e) :=
    reindex_loop service stop storyboards_to_update
      {| working := t; sent := []; updated := []; skipped := [] |} in
  {| table := match e with None => working p | Some _ => t end;
     requests := sent p;
     reported := updated p;
     passed := skipped p;
     outcome := e |}.

End Reindex.

(** ** test_vector_search.py *)

Module Search.

Local Open Scope R_scope.

Definition dot (a b : vector) : Q :=
  fold_left Qplus (map (fun xy => (fst xy * snd xy)%Q) (combine a b)) 0%Q.

Definition norm (a : vector) : R := sqrt (Q2R (dot a a)).

(** The operator [a <=> b] of the vector extension on two vectors of one
    length: one minus the cosine of their angle. *)
Definition cosine_distance (a b : vector) : R :=
  1 - Q2R (dot a b) / (norm a * norm b).

(** [embedding <=> %s::vector] on a row; [None] is SQL [NULL]. *)
Definition distance (q : vector) (r : StoryboardRecord) : option R :=
  option_map (fun e => cosine_distance e q) (embedding r).

(** The operator raises on two vectors of different lengths. *)
Definition comparable (q : vector) (r : StoryboardRecord) : bool :=
  match embedding r with
  | Some e => (length e =? length q)%nat
  | None => true
  end.

(** [ORDER BY ... ASC]: ascending, [NULL] after every value. *)
Definition nulls_last (a b : option R) : Prop :=
  match a, b with
  | Some x, Some y => x <= y
  | Some _, None => True
  | None, Some _ => False
  | None, None => True
  end.

Definition closer (q : vector) (r1 r2 : StoryboardRecord) : Prop :=
  nulls_last (distance q r1) (distance q r2).

(** A result row: [id], [content],
    [1 - (embedding <=> %s::vector) AS similarity]. *)
Record Hit : Type := {
  hit_id : Z;
  hit_content : json;
  similarity : option R
}.

Definition select (q : vector) (r : StoryboardRecord) : Hit :=
  {| hit_id := id r;
     hit_content := content r;
     similarity := option_map (fun d => 1 - d) (distance q r) |}.

(** What [cur.execute(sql_query, (q, q, k)); cur.fetchall()] may return.
    The statement has the distance as its only sort key, so every
    ordering of the rows that is ascending in it is a possible one. *)
Inductive sql_query (t : Table) (q : vector) (k : nat)
  : result (list Hit) -> Prop :=
| query_raises :
    q = [] \/ forallb (comparable q) (rows t) = false ->
    sql_query t q k (Raise DatabaseError)
| query_returns (ordered : list StoryboardRecord) :
    q <> [] ->
    forallb (comparable q) (rows t) = true ->
    Permutation (rows t) ordered ->
    Sorted (closer q) ordered ->
    sql_query t q k (Ok (map (select q) (firstn k ordered))).

#[export] Instance nulls_last_dec (a b : option R) : Decision (nulls_last a b).
Proof.
  destruct a as [x|], b as [y|]; simpl.
  - destruct (Rle_dec x y); [left | right]; assumption.
  - left; exact I.
  - right; intros [].
  - left; exact I.
Defined.

#[export] Instance closer_dec (q : vector) (r1 r2 : StoryboardRecord)
  : Decision (closer q r1 r2) := nulls_last_dec _ _.

(** One execution plan: scan the rows in table order, sort them, keep
    the first [k]. *)
Definition scan_and_sort (t : Table) (q : vector) (k : nat)
  : result (list Hit) :=
  match q with
  | [] => Raise DatabaseError
  | _ =>
      if forallb (comparable q) (rows t) then
        Ok (map (select q) (firstn k (merge_sort (closer q) (rows t))))
      else Raise DatabaseError
  end.

Definition search_query_text : string :=
  "How to build a great onboarding module for remote teams".

Definition top_k : nat := 3.

(** What the script prints. *)
Inductive Line : Type :=
| Announce                 (* the query text is about to be embedded *)
| Embedded                 (* the embedding was created *)
| Querying                 (* the statement is about to run *)
| NothingFound             (* no row came back *)
| Found (n : nat)          (* the number of rows that came back *)
| Separator
| IdLine (i : Z)
| ScoreLine (s : R)        (* the similarity, with four decimals *)
| ContentLine (c : json)
| Finished.

(** The loop over the rows.  The format of the score is one for numbers:
    on a row whose similarity is [None] it raises [TypeError], after the
    separator and the identifier of that row were printed. *)
Fixpoint print_rows (hits : list Hit) : list Line * option exn :=
  match hits with
  | [] => ([], None)
  | row :: rest =>
      match similarity row with
      | None => ([Separator; IdLine (hit_id row)], Some TypeError)
      | Some s =>
          let (lines, e) := print_rows rest in
          (Separator :: IdLine (hit_id row) :: ScoreLine s
             :: ContentLine (hit_content row) :: lines, e)
      end
  end.

(** What follows [cur.fetchall()]: the [if not rows] test, the loop, and
    the two closing lines when nothing was raised. *)
Definition report (hits : list Hit) : list Line * option exn :=
  match hits with
  | [] => ([NothingFound; Separator; Finished], None)
  | _ :: _ =>
      let (lines, e) := print_rows hits in
      match e with
      | None =>
          (Found (length hits) :: (lines ++ [Separator; Finished])%list, None)
      | Some _ => (Found (length hits) :: lines, e)
      end
  end.

(** The script: embed the query text, run the statement, print the rows.
    An exception leaves the [try]; both [except] clauses print it and the
    script ends.  The result is what was printed before, and the
    exception if there was one. *)
Inductive test_vector_search (service : Reindex.Embedder) (t : Table)
  : list Line * option exn -> Prop :=
| search_no_embedding :
    service (JStr search_query_text) = None ->
    test_vector_search service t ([Announce], Some ServiceError)
| search_query_raises (query_embedding : vector) (e : exn) :
    service (JStr search_query_text) = Some query_embedding ->
    sql_query t query_embedding top_k (Raise e) ->
    test_vector_search service t ([Announce; Embedded; Querying], Some e)
| search_reports (query_embedding : vector) (hits : list Hit) :
    service (JStr search_query_text) = Some query_embedding ->
    sql_query t query_embedding top_k (Ok hits) ->
    test_vector_search service t
      (([Announce; Embedded; Querying] ++ fst (report hits))%list,
       snd (report hits)).

End Search.

(** ** Vocabulary of the statements *)

(** A double-quoted piece of JSON text, for writing examples. *)
Definition quoted (s : string) : string :=
String "034" s ++ String "034" EmptyString.

(** Code-fence markup: a text made of backticks, spaces and newlines. *)
Definition is_fence (s : string) : bool :=
forallb (fun c => Text.mem c (Text.chars Converter.fence_chars)) (Text.chars s).



(** The extensions the batch driver recognizes. *)
Definition recognized : list string := [".pdf"; ".pptx"; ".txt"].

(** A character [strip] removes from a reply. *)
Definition fence (c : ascii) : Prop :=
  c = "`"%char \/ c = " "%char \/ c = "010"%char.

(** A state from which no input leads to a token list: the scanner has
    failed, or it is inside a string that a fence cannot close. *)
Definition hopeless (st : option Json.lexer) : Prop :=
  match st with
  | None => True
  | Some s => match Json.md s with Json.InStr _ => True | _ => False end
  end.

(** A list made of characters of [cs] only. *)
Definition within (cs l : list ascii) : Prop :=
  forallb (fun c => Text.mem c cs) l = true.

(** The characters [strip] is given. *)
Definition fence_set : list ascii := Text.chars Converter.fence_chars.

(** A generative service that replies with the text it is given: the
    document itself then plays the reply. *)
Definition echo : Converter.Gemini := fun text => Some text.

(** An embedding service that answers every input with [v]. *)
Definition always (v : vector) : Reindex.Embedder := fun _ => Some v.


(** A storyboard whose content is just a module name. *)
Definition storyboard (i : Z) (name : string) (e : option vector)
  : StoryboardRecord :=
{| id := i;
   content := JObj [("moduleName", JStr name)];
   embedding := e;
   embeddingSchemeVersion := None |}.

(** The text the reindexing job embeds for a record. *)
Definition text_to_embed (r : StoryboardRecord) : result json :=
get (content r) "moduleName" (JStr EmptyString).

(** What a run may do to a row: [id], [content] and
    [embeddingSchemeVersion] stay; the embedding stays, or becomes a whole
    vector the service returned. *)
Definition kept (service : Reindex.Embedder) (r r' : StoryboardRecord)
  : Prop :=
id r' = id r
/\ content r' = content r
/\ embeddingSchemeVersion r' = embeddingSchemeVersion r
/\ (embedding r' = embedding r
    \/ exists input v, service input = Some v /\ embedding r' = Some v).

(** Scores in descending order, [NULL] after every value. *)
Definition descending (a b : option R) : Prop :=
match a, b with
| Some x, Some y => (x >= y)%R
| Some _, None => True
| None, Some _ => False
| None, None => True
end.

(** What a run that commits does to a row: a row whose text is empty
    stays as it is; any other row gets the vector the service returned
    for its text. *)
Definition reembedded (service : Reindex.Embedder)
           (r r' : StoryboardRecord) : Prop :=
exists x, text_to_embed r = Ok x
          /\ if truthy x
             then exists v, service x = Some v /\ r' = set_embedding v r
             else r' = r.

(** The [(id, content)] pair the job fetches for a row. *)
Definition fetched (r : StoryboardRecord) : Z * json := (id r, content r).

(** The shape of every answer of the similarity query: the rows found
    are as many as the limit and the table allow; no row left out is
    strictly closer to the query than a row found; the scores descend,
    rows without score last; a row with an embedding scores one minus its
    cosine distance to the query, a row without has no score. *)
Definition ranked (t : Table) (q : vector) (k : nat)
           (hits : list Search.Hit) : Prop :=
exists found rest : list StoryboardRecord,
  hits = map (Search.select q) found
  /\ Permutation (rows t) (found ++ rest)
  /\ length found = Nat.min k (length (rows t))
  /\ (forall r r', In r found -> In r' rest -> Search.closer q r r')
  /\ Sorted (fun h h' => descending (Search.similarity h)
                                    (Search.similarity h')) hits
  /\ (forall r e, In r found -> embedding r = Some e ->
        Search.similarity (Search.select q r)
        = Some (1 - Search.cosine_distance e q)%R)
  /\ (forall r, In r found -> embedding r = None ->
        Search.similarity (Search.select q r) = None).

(** Which rows take part in the query, and what becomes of it. *)
Definition unfiltered (t : Table) (q : vector) (k : nat)
           (res : result (list Search.Hit)) : Prop :=
(rows t = [] -> q <> [] -> res = Ok [])
/\ (forall hits, res = Ok hits ->
      length hits = Nat.min k (length (rows t)))
/\ (forallb (Search.comparable q) (rows t) = false ->
    res = Raise DatabaseError)
/\ (q <> [] -> forallb (Search.comparable q) (rows t) = true ->
    exists hits, res = Ok hits).

(** A name the batch driver processes: it ends with one of the three
    extensions. *)
Definition recognized_name (filename : string) : bool :=
(Text.endswith filename ".pdf" || Text.endswith filename ".pptx"
 || Text.endswith filename ".txt")%bool.

(** A text of exactly 25000 characters. *)
Definition long_text : string :=
Text.text (repeat "a"%char 25000).

(** Whether the reindexing job embeds a record: its content is an object
    and its module name is not empty. *)
Definition has_text (r : StoryboardRecord) : bool :=
match text_to_embed r with
| Ok x => truthy x
| Raise _ => false
end.

(** The module name of a record, where it has one. *)
Definition module_text (r : StoryboardRecord) : json :=
match text_to_embed r with
| Ok x => x
| Raise _ => JNull
end.

(** A record the job can deal with on a column of dimension [dim]: its
    content is an object and, if its module name is not empty, the
    service answers it with a vector the column accepts. *)
Definition embeddable (service : Reindex.Embedder) (dim : option nat)
           (r : StoryboardRecord) : Prop :=
exists x, text_to_embed r = Ok x
          /\ (truthy x = true ->
              exists v, service x = Some v /\ accepts dim v = true).

(** One turn of the reindexing loop on the pair [(i, c)], the rest of the
    list being [l]. *)
Definition loop_turn (service : Reindex.Embedder) (stop' : option nat)
           (i : Z) (c : json) (l : list (Z * json)) (p : Reindex.Progress)
  : Reindex.Progress * option exn :=
match get c "moduleName" (JStr EmptyString) with
| Raise e => (p, Some e)
| Ok text =>
    if negb (truthy text) then
      Reindex.reindex_loop service stop' l
        {| Reindex.working := Reindex.working p;
           Reindex.sent := Reindex.sent p;
           Reindex.updated := Reindex.updated p;
           Reindex.skipped := Reindex.skipped p ++ [i] |}
    else
      match service text with
      | None =>
          ({| Reindex.working := Reindex.working p;
              Reindex.sent := Reindex.sent p ++ [text];
              Reindex.updated := Reindex.updated p;
              Reindex.skipped := Reindex.skipped p |}, Some ServiceError)
      | Some v =>
          match update_embedding v i (Reindex.working p) with
          | Raise e =>
              ({| Reindex.working := Reindex.working p;
                  Reindex.sent := Reindex.sent p ++ [text];
                  Reindex.updated := Reindex.updated p;
                  Reindex.skipped := Reindex.skipped p |}, Some e)
          | Ok t =>
              Reindex.reindex_loop service stop' l
                {| Reindex.working := t;
                   Reindex.sent := Reindex.sent p ++ [text];
                   Reindex.updated := Reindex.updated p ++ [i];
                   Reindex.skipped := Reindex.skipped p |}
          end
      end
end.

(** A file system on which every write succeeds. *)
Definition reliable : Converter.Disk := fun _ _ => Converter.Saved.

(** A text that begins with a whole character: every Python string does,
    its bytes never begin in the middle of one. *)
Definition starts_character (s : string) : bool :=
match Text.chars s with
| [] => true
| c :: _ => negb (Text.is_continuation c)
end.

(** The JSON text of the array of one string, a lower-case e with an
    acute accent: six bytes for five characters. *)
Definition accented : string :=
String "[" (String "034" (String "195" (String "169"
  (String "034" (String "]" EmptyString))))).

(** A row with a stored embedding, and the number of them. *)
Definition has_embedding (r : StoryboardRecord) : bool :=
match embedding r with
| Some _ => true
| None => false
end.

Definition count_embedded (l : list StoryboardRecord) : nat :=
length (List.filter has_embedding l).

(** A result row with a score. *)
Definition scored (h : Search.Hit) : bool :=
match Search.similarity h with
| Some _ => true
| None => false
end.

(** The last component of a path. *)
Fixpoint file_name (l : list ascii) : list ascii :=
match l with
| [] => []
| c :: l' =>
    if existsb (Ascii.eqb "/") l' then file_name l'
    else if Ascii.eqb c "/" then l' else l
end.

(** A file system that takes names of 255 bytes at most, as Linux file
    systems do: [open] raises on a longer one. *)
Definition name_max : Converter.Disk :=
fun path _ =>
  if (255 <? length (file_name (Text.chars path)))%nat
  then Converter.OpenRaises else Converter.Saved.

(** A base name of 251 bytes. *)
Definition long_name : string :=
Text.text (repeat "a"%char 251).


(* ===================================================================== *)
(** * Part II.  Properties                                                *)
(* ===================================================================== *)

(** ** Strings *)

Section StringFacts.

Lemma append_cons (c : ascii) (s t : string) :
  String c s ++ t = String c (s ++ t).
Proof. reflexivity. Qed.



Lemma chars_app (a b : string) :
  Text.chars (a ++ b) = (Text.chars a ++ Text.chars b)%list.
Proof.
  unfold Text.chars.
  induction a as [|x a IH]; [reflexivity|].
  rewrite append_cons. simpl. rewrite IH. reflexivity.
Qed.

Lemma chars_text (l : list ascii) : Text.chars (Text.text l) = l.
Proof. apply list_ascii_of_string_of_list_ascii. Qed.

Lemma text_chars (s : string) : Text.text (Text.chars s) = s.
Proof. apply string_of_list_ascii_of_string. Qed.

Lemma substring_append (a b : string) :
  substring 0 (String.length a) (a ++ b) = a.
Proof.
  induction a as [|x a IH].
  - destruct b; reflexivity.
  - rewrite append_cons. simpl. rewrite IH. reflexivity.
Qed.

Lemma length_chars (s : string) : length (Text.chars s) = String.length s.
Proof.
  unfold Text.chars. induction s as [|x s IH]; simpl; [reflexivity|].
  rewrite IH. reflexivity.
Qed.

End StringFacts.

(** ** Slide decks *)

Section SlideDecks.

Import Converter.






End SlideDecks.

(** ** The batch driver *)

Section BatchDriver.

Import Converter.

Lemma rfind_dot_app (l1 l2 : list ascii) (i : nat) (last : option nat) :
  Text.rfind_dot (l1 ++ l2) i last
  = Text.rfind_dot l2 (i + length l1) (Text.rfind_dot l1 i last).
Proof.
  revert i last. induction l1 as [|c l1 IH]; intros i last; simpl.
  - rewrite Nat.add_0_r. reflexivity.
  - rewrite IH. f_equal. lia.
Qed.

Lemma splitext_root_recognized (base ext : string) :
  In ext recognized ->
  forallb (Ascii.eqb ".") (Text.chars base) = false ->
  Text.splitext_root (base ++ ext) = base.
Proof.
  intros Hext Hdots. unfold Text.splitext_root.
  rewrite chars_app, rfind_dot_app.
  assert (Hdot : Text.rfind_dot (Text.chars ext) (0 + length (Text.chars base))
                   (Text.rfind_dot (Text.chars base) 0 None)
                 = Some (length (Text.chars base))).
  { destruct Hext as [<- | [<- | [<- | []]]]; reflexivity. }
  rewrite Hdot.
  rewrite firstn_app, Nat.sub_diag, firstn_all. simpl firstn.
  rewrite app_nil_r, Hdots, length_chars.
  apply substring_append.
Qed.

Lemma process_files_app (gemini : Gemini) (disk : Disk) (out : string)
      (l1 l2 : list (string * FileData)) (b : Batch) :
  raised b = None ->
  process_files gemini disk out (l1 ++ l2) b
  = match raised (process_files gemini disk out l1 b) with
    | None => process_files gemini disk out l2 (process_files gemini disk out l1 b)
    | Some _ => process_files gemini disk out l1 b
    end.
Proof.
  revert b. induction l1 as [|[filename data] l1 IH]; intros b Hb.
  - simpl. rewrite Hb. reflexivity.
  - simpl. destruct (extract filename data) as [[text|e]|].
    + destruct (snd (convert_to_json_with_gemini gemini text)) as [j|e];
        [destruct (disk (output_path out filename) j)|];
        apply IH; exact Hb.
    + reflexivity.
    + apply IH; exact Hb.
Qed.

(** A failure of the conversion of one file is caught: the name is
    reported and the loop goes on with the next file. *)
Lemma conversion_failure_is_skipped (gemini : Gemini) (disk : Disk) (out : string)
      (filename : string) (data : FileData) (text : string) (e : exn)
      (rest : list (string * FileData)) (b : Batch) :
  extract filename data = Some (Ok text) ->
  snd (convert_to_json_with_gemini gemini text) = Raise e ->
  process_files gemini disk out ((filename, data) :: rest) b
  = process_files gemini disk out rest
      {| written := written b;
         failed := failed b ++ [filename];
         raised := raised b |}.
Proof. intros He Hc. simpl. rewrite He, Hc. reflexivity. Qed.

(** A failure of the extraction of one file is not: it ends the loop. *)
Lemma extraction_failure_ends_batch (gemini : Gemini) (disk : Disk) (out : string)
      (filename : string) (data : FileData) (e : exn)
      (rest : list (string * FileData)) (b : Batch) :
  extract filename data = Some (Raise e) ->
  process_files gemini disk out ((filename, data) :: rest) b
  = {| written := written b; failed := failed b; raised := Some e |}.
Proof. intros He. simpl. rewrite He. reflexivity. Qed.

(** C10, amended.  A file whose text is extracted, whose reply is decoded
    and whose document is written without an exception, so that the
    [try] block reaches its end, is found in the output folder under the
    root of its name (the name without its extension) followed by [.json],
    in place of what was at that path.  Two names of one batch that differ
    only in a recognized extension share one output path, and the file
    written later is the one found there. *)
Theorem output_path_shared_and_overwritten
        (gemini : Gemini) (disk : Disk) (output_folder : string)
        (existing : gmap string Stored)
        (listing : list (string * FileData))
        (filename : string) (data : FileData)
        (text : string) (json_data : json) :
  raised (process_folder gemini disk listing output_folder existing) = None ->
  extract filename data = Some (Ok text) ->
  snd (convert_to_json_with_gemini gemini text) = Ok json_data ->
  disk (output_path output_folder filename) json_data = Saved ->
  written (process_folder gemini disk (listing ++ [(filename, data)])
                          output_folder existing)
    !! Text.path_join output_folder (Text.splitext_root filename ++ ".json")
  = Some (Whole json_data)
  /\ forall base ext1 ext2 : string,
      In ext1 recognized -> In ext2 recognized ->
      forallb (Ascii.eqb ".") (Text.chars base) = false ->
      output_path output_folder (base ++ ext1)
      = Text.path_join output_folder (base ++ ".json")
      /\ output_path output_folder (base ++ ext1)
         = output_path output_folder (base ++ ext2).
Proof.
  intros Hrun Hext Hconv Hdisk. split.
  - unfold process_folder in *.
    rewrite process_files_app by reflexivity.
    rewrite Hrun. simpl. rewrite Hext, Hconv, Hdisk. simpl.
    unfold output_path. apply lookup_insert_eq.
  - intros base ext1 ext2 H1 H2 Hdots. unfold output_path.
    rewrite !splitext_root_recognized by assumption. split; reflexivity.
Qed.

End BatchDriver.

(** ** The scanner of [json.loads] and code fences *)

Section Fences.

Import Json.

Lemma is_ws_cases (c : ascii) :
  is_ws c = true ->
  c = " "%char \/ c = "009"%char \/ c = "010"%char \/ c = "013"%char.
Proof.
  destruct c as [[] [] [] [] [] [] [] []]; vm_compute; intros H;
    try discriminate H; auto.
Qed.

Lemma fence_mem (c : ascii) :
  Text.mem c (Text.chars Converter.fence_chars) = true <-> fence c.
Proof.
  change (Text.chars Converter.fence_chars)
    with ["`"%char; " "%char; "010"%char].
  unfold Text.mem, fence. simpl.
  rewrite !orb_true_iff, !Ascii.eqb_eq. intuition discriminate.
Qed.

Lemma scan_app (st : option lexer) (l1 l2 : list ascii) :
  scan st (l1 ++ l2) = scan (scan st l1) l2.
Proof. apply fold_left_app. Qed.

Lemma scan_failed (l : list ascii) : scan None l = None.
Proof. induction l as [|c l IH]; [reflexivity | exact IH]. Qed.

Lemma feed_ws_finish (st : option lexer) (c : ascii) :
  is_ws c = true -> finish (feed st c) = finish st.
Proof.
  intros H. destruct st as [[ts m]|]; [|reflexivity].
  destruct (is_ws_cases c H) as [-> | [-> | [-> | ->]]];
    destruct m; try reflexivity.
Qed.

Lemma finish_scan_blank (l : list ascii) (st : option lexer) :
  forallb is_ws l = true -> finish (scan st l) = finish st.
Proof.
  revert st. induction l as [|c l IH]; intros st H; [reflexivity|].
  simpl in H. apply andb_true_iff in H as [Hc Hl].
  simpl. rewrite (IH _ Hl). apply feed_ws_finish, Hc.
Qed.

Lemma scan_blank_idle (l : list ascii) (ts : list token) :
  forallb is_ws l = true ->
  scan (Some (Lexer ts Idle)) l = Some (Lexer ts Idle).
Proof.
  induction l as [|c l IH]; intros H; [reflexivity|].
  simpl in H. apply andb_true_iff in H as [Hc Hl].
  simpl. unfold step. simpl. unfold idle_step. rewrite Hc. apply IH, Hl.
Qed.

Lemma lex_blank_l (a l : list ascii) :
  forallb is_ws a = true -> lex (a ++ l) = lex l.
Proof.
  intros H. unfold lex. rewrite scan_app, scan_blank_idle by exact H.
  reflexivity.
Qed.

Lemma lex_blank_r (l b : list ascii) :
  forallb is_ws b = true -> lex (l ++ b) = lex l.
Proof.
  intros H. unfold lex. rewrite scan_app. apply finish_scan_blank, H.
Qed.

Lemma hopeless_finish (st : option lexer) : hopeless st -> finish st = None.
Proof.
  destruct st as [[ts m]|]; [|reflexivity].
  destruct m; simpl; intros H; try contradiction; reflexivity.
Qed.

Lemma hopeless_feed (st : option lexer) (c : ascii) :
  hopeless st -> fence c -> hopeless (feed st c).
Proof.
  destruct st as [[ts m]|]; [|intros; exact I].
  destruct m; simpl; intros H; try contradiction.
  intros [-> | [-> | ->]]; exact I.
Qed.

Lemma hopeless_scan (l : list ascii) (st : option lexer) :
  hopeless st -> Forall fence l -> hopeless (scan st l).
Proof.
  revert st. induction l as [|c l IH]; intros st H Hl; [exact H|].
  inversion Hl; subst. simpl. apply IH; [apply hopeless_feed|]; assumption.
Qed.

Lemma backtick_hopeless (st : option lexer) : hopeless (feed st "`").
Proof.
  destruct st as [[ts m]|]; [|exact I].
  destruct m; exact I.
Qed.

Lemma fence_backtick_hopeless (l : list ascii) (st : option lexer) :
  Forall fence l -> In "`"%char l -> hopeless (scan st l).
Proof.
  revert st. induction l as [|c l IH]; intros st Hl Hin; [destruct Hin|].
  inversion Hl; subst. simpl.
  destruct (Ascii.eqb_spec c "`") as [->|Hc].
  - apply hopeless_scan; [apply backtick_hopeless | assumption].
  - apply IH; [assumption|]. destruct Hin as [Hin|Hin]; [congruence|exact Hin].
Qed.

Lemma fence_backtick_idle (l : list ascii) (ts : list token) :
  Forall fence l -> In "`"%char l -> scan (Some (Lexer ts Idle)) l = None.
Proof.
  induction l as [|c l IH]; intros Hl Hin; [destruct Hin|].
  inversion Hl as [|? ? Hc Hl']; subst. simpl.
  destruct Hc as [-> | [-> | ->]].
  - apply scan_failed.
  - apply IH; [assumption|]. destruct Hin as [Hin|Hin]; [discriminate|exact Hin].
  - apply IH; [assumption|]. destruct Hin as [Hin|Hin]; [discriminate|exact Hin].
Qed.

(** A fence either holds a backtick or is blank. *)
Lemma fence_backtick_or_blank (l : list ascii) :
  Forall fence l -> In "`"%char l \/ forallb is_ws l = true.
Proof.
  induction 1 as [|c l Hc Hl IH]; [right; reflexivity|].
  destruct IH as [IH|IH]; [left; right; exact IH|].
  destruct Hc as [-> | [-> | ->]].
  - left; left; reflexivity.
  - right; simpl; exact IH.
  - right; simpl; exact IH.
Qed.

End Fences.

(** ** [strip] *)

Section Strip.

Local Open Scope list_scope.

Variable cs : list ascii.

Lemma lstrip_within (a l : list ascii) :
  within cs a -> Text.lstrip cs (a ++ l) = Text.lstrip cs l.
Proof.
  unfold within. induction a as [|c a IH]; intros H; [reflexivity|].
  simpl in H. apply andb_true_iff in H as [Hc Ha].
  simpl. rewrite Hc. apply IH, Ha.
Qed.

Lemma lstrip_split (l : list ascii) :
  exists a, within cs a /\ l = a ++ Text.lstrip cs l.
Proof.
  induction l as [|c l [a [Ha IH]]].
  - exists []. split; reflexivity.
  - simpl. destruct (Text.mem c cs) eqn:Hc.
    + exists (c :: a). split.
      * unfold within. simpl. rewrite Hc. exact Ha.
      * simpl. f_equal. exact IH.
    + exists []. split; reflexivity.
Qed.

Lemma lstrip_stops (l r : list ascii) :
  Text.lstrip cs l <> [] -> Text.lstrip cs (l ++ r) = Text.lstrip cs l ++ r.
Proof.
  induction l as [|c l IH]; intros H; [contradiction H; reflexivity|].
  simpl in *. destruct (Text.mem c cs); [apply IH, H | reflexivity].
Qed.


Lemma within_rev (l : list ascii) : within cs l -> within cs (rev l).
Proof.
  unfold within. rewrite !forallb_forall. intros H c Hc.
  apply H, in_rev, Hc.
Qed.

Lemma rstrip_within (l b : list ascii) :
  within cs b -> Text.rstrip cs (l ++ b) = Text.rstrip cs l.
Proof.
  intros H. unfold Text.rstrip. rewrite rev_app_distr.
  rewrite lstrip_within by (apply within_rev, H). reflexivity.
Qed.

Lemma rstrip_split (l : list ascii) :
  exists b, within cs b /\ l = Text.rstrip cs l ++ b.
Proof.
  destruct (lstrip_split (rev l)) as [a [Ha H]].
  exists (rev a). split; [apply within_rev, Ha|].
  unfold Text.rstrip. rewrite <- rev_app_distr, <- H, rev_involutive.
  reflexivity.
Qed.

(** Stripping a text wrapped in strippable characters strips the text. *)
Lemma strip_wrapped (a l b : list ascii) :
  within cs a -> within cs b -> Text.lstrip cs l <> [] ->
  Text.rstrip cs (Text.lstrip cs (a ++ l ++ b))
  = Text.rstrip cs (Text.lstrip cs l).
Proof.
  intros Ha Hb Hl.
  rewrite lstrip_within by exact Ha.
  rewrite lstrip_stops by exact Hl.
  apply rstrip_within, Hb.
Qed.

End Strip.

(** ** Decoding a reply *)

Section Replies.

Import Json Converter.

Local Open Scope list_scope.

Lemma within_fence (l : list ascii) : within fence_set l <-> Forall fence l.
Proof.
  unfold within. rewrite forallb_forall, List.Forall_forall.
  split; intros H c Hc; apply fence_mem, H, Hc.
Qed.

Lemma parse_nothing : parse [] = None.
Proof. reflexivity. Qed.

(** A text that scans to tokens keeps them when its fence characters are
    stripped, and something is left of it unless there was no token. *)
Lemma lex_strip (l : list ascii) (ts : list token) :
  lex l = Some ts ->
  lex (Text.rstrip fence_set (Text.lstrip fence_set l)) = Some ts
  /\ (ts <> [] -> Text.lstrip fence_set l <> []).
Proof.
  intros Hlex.
  destruct (lstrip_split fence_set l) as [a [Ha Hl]].
  destruct (rstrip_split fence_set (Text.lstrip fence_set l)) as [b [Hb Hm]].
  apply within_fence in Ha, Hb.
  assert (Ha' : forallb is_ws a = true).
  { destruct (fence_backtick_or_blank a Ha) as [Hin|Hblank]; [|exact Hblank].
    rewrite Hl in Hlex. unfold lex in Hlex.
    rewrite scan_app, (fence_backtick_idle a [] Ha Hin), scan_failed in Hlex.
    discriminate Hlex. }
  rewrite Hl, lex_blank_l in Hlex by exact Ha'.
  assert (Hb' : forallb is_ws b = true).
  { destruct (fence_backtick_or_blank b Hb) as [Hin|Hblank]; [|exact Hblank].
    rewrite Hm in Hlex. unfold lex in Hlex. rewrite scan_app in Hlex.
    rewrite (hopeless_finish _ (fence_backtick_hopeless b _ Hb Hin)) in Hlex.
    discriminate Hlex. }
  split.
  - rewrite Hm, lex_blank_r in Hlex by exact Hb'. exact Hlex.
  - intros Hts Hnil. rewrite Hnil in Hlex. apply Hts.
    vm_compute in Hlex. congruence.
Qed.

Lemma loads_chars (l : list ascii) (ts : list token) :
  lex l = Some ts -> loads (Text.text l) = parse ts.
Proof. intros H. unfold loads. rewrite chars_text, H. reflexivity. Qed.

(** Valid JSON between two fences: the fences go, the document stays. *)
Lemma loads_strip_fenced (l s r : string) (v : json) :
  is_fence l = true -> is_fence r = true -> loads s = Some v ->
  loads (Text.strip fence_chars (l ++ s ++ r)%string) = Some v.
Proof.
  intros Hl Hr Hs. unfold loads in Hs.
  destruct (lex (Text.chars s)) as [ts|] eqn:Hlex; [|discriminate Hs].
  destruct (lex_strip _ _ Hlex) as [Hcore Hne].
  assert (Hts : ts <> []) by (intros ->; discriminate Hs).
  unfold Text.strip. rewrite !chars_app.
  change (Text.chars fence_chars) with fence_set. rewrite strip_wrapped; [| exact Hl | exact Hr | exact (Hne Hts)].
  rewrite (loads_chars _ _ Hcore). exact Hs.
Qed.

(** A reply that opens with a backtick is not JSON. *)
Lemma loads_backtick (l rest : string) :
  is_fence l = true -> In "`"%char (Text.chars l) ->
  loads (l ++ rest)%string = None.
Proof.
  intros Hl Hin. unfold loads, lex. rewrite chars_app, scan_app.
  rewrite (fence_backtick_idle _ [] (proj1 (within_fence _) Hl) Hin).
  rewrite scan_failed. reflexivity.
Qed.

(** C6, amended.  The converter first hands the reply to the JSON parser
    as it is.  When that fails it strips backticks, spaces and newlines
    from both ends and parses once more, and that second attempt is the
    last.  A reply made of a valid JSON document between a fence opening
    with three backticks and a fence closing with three is decoded, by
    that second attempt, to the document, provided the fences hold
    nothing but backticks, spaces and newlines. *)
Theorem reply_parsed_directly_or_after_one_strip
        (gemini : Gemini) (storyboard_text reply : string) :
  gemini (Text.prefix 25000 storyboard_text) = Some reply ->
  (forall v : json,
      loads reply = Some v ->
      convert_to_json_with_gemini gemini storyboard_text = ([reply], Ok v))
  /\ (loads reply = None ->
      convert_to_json_with_gemini gemini storyboard_text
      = ([reply; Text.strip fence_chars reply],
         match loads (Text.strip fence_chars reply) with
         | Some v => Ok v
         | None => Raise JSONDecodeError
         end))
  /\ (forall (l s r : string) (v : json),
         reply = (("```" ++ l) ++ s ++ (r ++ "```"))%string ->
         is_fence l = true -> is_fence r = true ->
         loads s = Some v ->
         convert_to_json_with_gemini gemini storyboard_text
         = ([reply; Text.strip fence_chars reply], Ok v)).
Proof.
  intros Hreply. unfold convert_to_json_with_gemini. rewrite Hreply.
  unfold decode_reply. split; [|split].
  - intros v Hv. rewrite Hv. reflexivity.
  - intros Hnone. rewrite Hnone. reflexivity.
  - intros l s r v -> Hl Hr Hs.
    assert (Hopen : is_fence ("```" ++ l)%string = true).
    { unfold is_fence in *. rewrite chars_app, forallb_app, Hl. reflexivity. }
    assert (Hclose : is_fence (r ++ "```")%string = true).
    { unfold is_fence in *. rewrite chars_app, forallb_app, Hr. reflexivity. }
    rewrite loads_backtick;
      [| exact Hopen | rewrite chars_app; left; reflexivity].
    rewrite (loads_strip_fenced _ _ _ v Hopen Hclose Hs). reflexivity.
Qed.

End Replies.

(** ** The converter on concrete inputs *)

Section ConverterExamples.

Import Json Converter.

Example loads_object :
  loads ("{" ++ quoted "moduleName" ++ ": " ++ quoted "Intro" ++ ", "
         ++ quoted "tags" ++ ": [1, 2.5, true, null]}")
  = Some (JObj [("moduleName", JStr "Intro");
                ("tags", JArr [JNum 1; JNum (5 # 2); JBool true; JNull])]).
Proof. vm_compute. reflexivity. Qed.

Example loads_numbers :
  loads " [-12.25e1, 0, 1E-2] "
  = Some (JArr [JNum (-245 # 2); JNum 0; JNum (1 # 100)])
  /\ loads "01" = None /\ loads "1." = None /\ loads "[1,]" = None
  /\ loads ("{" ++ quoted "a" ++ ": 1, " ++ quoted "a" ++ ": 2}")
     = Some (JObj [("a", JNum 2)])
  /\ loads EmptyString = None /\ loads "nul" = None /\ loads "{} x" = None.
Proof. vm_compute. repeat split; reflexivity. Qed.

(** C6 as stated fails.  A fence that names its language is
    triple-backtick fencing around a valid document, yet the strip stops
    at the name, the second attempt parses the name with the document,
    and the conversion fails. *)
Lemma fence_with_language_tag_is_not_decoded :
  let reply := "```json" ++ nl ++ "[1]" ++ nl ++ "```" in
  loads "[1]" = Some (JArr [JNum 1])
  /\ Text.strip fence_chars reply = "json" ++ nl ++ "[1]"
  /\ convert_to_json_with_gemini echo reply
     = ([reply; "json" ++ nl ++ "[1]"], Raise JSONDecodeError).
Proof. vm_compute. repeat split; reflexivity. Qed.

Lemma fenced_reply_decoded :
  let reply := (("```" ++ nl) ++ "[1]" ++ (nl ++ "```")) in
  convert_to_json_with_gemini echo reply
  = ([reply; Text.strip fence_chars reply], Ok (JArr [JNum 1])).
Proof.
  intros reply.
  apply (proj2 (proj2 (reply_parsed_directly_or_after_one_strip
                         echo reply reply eq_refl))
           nl "[1]" nl (JArr [JNum 1]));
    vm_compute; reflexivity.
Defined.

Lemma later_file_overwrites :
  written (process_folder echo reliable
             [("a.pdf", PdfFile [Some "[1]"]); ("a.txt", TextFile "[2]")]
             "storyboards_json" ∅)
    !! "storyboards_json/a.json"
  = Some (Whole (JArr [JNum 2])).
Proof.
  refine (proj1 (output_path_shared_and_overwritten
                   echo reliable "storyboards_json" ∅
                   [("a.pdf", PdfFile [Some "[1]"])]
                   "a.txt" (TextFile "[2]") "[2]" (JArr [JNum 2]) _ _ _ _));
    vm_compute; reflexivity.
Defined.

(** C10 as stated fails.  A name of 255 bytes is one the file system
    accepts, and its text converts; the name of its output is one byte
    longer, [open] raises inside the [try], and the driver reports the
    file as failed: nothing is written under its base name. *)
Lemma long_name_is_converted_and_not_written :
  let filename := long_name ++ ".txt" in
  let run := process_folder echo name_max [(filename, TextFile "[1]")]
                            "storyboards_json" ∅ in
  String.length filename = 255%nat
  /\ extract filename (TextFile "[1]") = Some (Ok "[1]")
  /\ snd (convert_to_json_with_gemini echo "[1]") = Ok (JArr [JNum 1])
  /\ output_path "storyboards_json" filename
     = "storyboards_json/" ++ long_name ++ ".json"
  /\ raised run = None
  /\ written run !! output_path "storyboards_json" filename = None
  /\ failed run = [filename].
Proof. vm_compute. repeat split; reflexivity. Qed.

(** C3.  The batch on a folder holding an unreadable PDF and a text file
    that converts: the failure of the extraction is raised outside the
    [try], it ends the loop, and the text file after it is never
    written, although alone it would be. *)
Theorem unreadable_file_ends_the_batch :
  let bad := ("bad.pdf", Unreadable) in
  let good := ("good.txt", TextFile "[1]") in
  let run := process_folder echo reliable [bad; good] "storyboards_json" ∅ in
  raised run = Some FileError
  /\ failed run = []
  /\ written run !! "storyboards_json/good.json" = None
  /\ written (process_folder echo reliable [good] "storyboards_json" ∅)
       !! "storyboards_json/good.json" = Some (Whole (JArr [JNum 1])).
Proof. vm_compute. repeat split; reflexivity. Qed.

End ConverterExamples.

(** ** The [UPDATE] statement *)

Section Update.

(** C2 as stated fails: the statement writes the [embedding] column
    only.  A row declared under one scheme keeps that declaration when a
    vector of another scheme replaces its embedding. *)
Lemma version_left_behind :
  update_embedding [1; 0; 0]%Q 7
    {| dimension := None;
       rows := [ {| id := 7;
                    content := JObj [];
                    embedding := Some [1; 0]%Q;
                    embeddingSchemeVersion := Some "text-embedding-3-small" |} ] |}
  = Ok {| dimension := None;
          rows := [ {| id := 7;
                       content := JObj [];
                       embedding := Some [1; 0; 0]%Q;
                       embeddingSchemeVersion := Some "text-embedding-3-small" |} ] |}.
Proof. reflexivity. Qed.

(** The rows after a successful [UPDATE], one by one. *)
Lemma update_rows (v : vector) (rid : Z) (t t' : Table) :
  update_embedding v rid t = Ok t' ->
  dimension t' = dimension t
  /\ List.Forall2
       (fun r r' =>
          id r' = id r
          /\ content r' = content r
          /\ embeddingSchemeVersion r' = embeddingSchemeVersion r
          /\ embedding r' = if (id r =? rid)%Z then Some v else embedding r)
       (rows t) (rows t').
Proof.
  unfold update_embedding. destruct (accepts (dimension t) v); [|discriminate].
  intros [= <-]. simpl. split; [reflexivity|].
  induction (rows t) as [|r l IH]; simpl; constructor; [|exact IH].
  destruct (id r =? rid)%Z; simpl; repeat split; reflexivity.
Qed.

(** C2, amended.  A successful [UPDATE] replaces, in the rows with the
    given identifier, the embedding by the new vector as a whole; it
    leaves the identifier, the content and the scheme version of every
    row, the embedding of every other row, and the number and order of
    the rows as they were.  No scheme version is written. *)
Theorem update_replaces_embedding_only
        (v : vector) (rid : Z) (t t' : Table) :
  update_embedding v rid t = Ok t' ->
  dimension t' = dimension t
  /\ List.Forall2
       (fun r r' =>
          id r' = id r
          /\ content r' = content r
          /\ embeddingSchemeVersion r' = embeddingSchemeVersion r
          /\ embedding r' = if (id r =? rid)%Z then Some v else embedding r)
       (rows t) (rows t').
Proof. apply update_rows. Qed.

Lemma update_replaces_embedding_only_at_7 :
  let t := {| dimension := None;
              rows := [storyboard 7 "Intro" (Some [1; 0]%Q)] |} in
  let t' := {| dimension := None;
               rows := [storyboard 7 "Intro" (Some [1; 0; 0]%Q)] |} in
  dimension t' = dimension t
  /\ List.Forall2
       (fun r r' =>
          id r' = id r
          /\ content r' = content r
          /\ embeddingSchemeVersion r' = embeddingSchemeVersion r
          /\ embedding r' = if (id r =? 7)%Z then Some [1; 0; 0]%Q
                            else embedding r)
       (rows t) (rows t').
Proof.
  intros t t'.
  apply (update_replaces_embedding_only [1; 0; 0]%Q 7 t t'). reflexivity.
Defined.

End Update.

(** ** The reindexing job *)

Section ReindexingJob.

Import Reindex.

Variable service : Embedder.

Lemma kept_refl (r : StoryboardRecord) : kept service r r.
Proof. unfold kept. auto. Qed.

Lemma kept_trans (r1 r2 r3 : StoryboardRecord) :
  kept service r1 r2 -> kept service r2 r3 -> kept service r1 r3.
Proof.
  intros (Hi & Hc & Hv & He) (Hi' & Hc' & Hv' & He').
  repeat split; [congruence | congruence | congruence |].
  destruct He' as [He'|He']; [|right; exact He'].
  destruct He as [He|He]; [left; congruence|].
  right. destruct He as (x & v & Hx & Hv2). exists x, v.
  split; [exact Hx | congruence].
Qed.

Lemma all_kept_refl (l : list StoryboardRecord) :
  List.Forall2 (kept service) l l.
Proof. induction l; constructor; [apply kept_refl | assumption]. Qed.

Lemma all_kept_trans (l1 l2 l3 : list StoryboardRecord) :
  List.Forall2 (kept service) l1 l2 -> List.Forall2 (kept service) l2 l3 ->
  List.Forall2 (kept service) l1 l3.
Proof.
  intros H. revert l3. induction H as [|r1 r2 l1 l2 Hr Hl IH]; intros l3 H3.
  - inversion H3. constructor.
  - inversion H3; subst. constructor; [eapply kept_trans; eassumption|].
    apply IH. assumption.
Qed.

Lemma update_kept (input : json) (v : vector) (rid : Z) (t t' : Table) :
  service input = Some v ->
  update_embedding v rid t = Ok t' ->
  dimension t' = dimension t
  /\ List.Forall2 (kept service) (rows t) (rows t').
Proof.
  intros Hs Hu.
  destruct (update_rows v rid t t' Hu) as [Hd Hr].
  split; [exact Hd|].
  induction Hr as [|r r' l l' (Hi & Hc & Hv & He) Hl IH]; constructor;
    [|exact IH].
  repeat split; try assumption.
  destruct (id r =? rid)%Z; [right; exists input, v; auto | left; exact He].
Qed.

(** A property of the progress that every step of the loop preserves holds
    when the loop stops, however it stops. *)
Lemma reindex_loop_invariant (I : Progress -> Prop) :
  (forall p i, I p ->
     I {| working := working p; sent := sent p; updated := updated p;
          skipped := skipped p ++ [i] |}) ->
  (forall p x, I p -> truthy x = true ->
     I {| working := working p; sent := sent p ++ [x];
          updated := updated p; skipped := skipped p |}) ->
  (forall p x v i t, I p -> service x = Some v ->
     update_embedding v i (working p) = Ok t ->
     I {| working := t; sent := sent p; updated := updated p ++ [i];
          skipped := skipped p |}) ->
  forall l stop p p' e,
    I p -> reindex_loop service stop l p = (p', e) -> I p'.
Proof.
  intros Hskip Hsend Hwrite.
  assert (Hbody : forall l,
    (forall stop p p' e,
        I p -> reindex_loop service stop l p = (p', e) -> I p') ->
    forall i c stop' p p' e,
      I p ->
      match get c "moduleName" (JStr EmptyString) with
      | Raise e => (p, Some e)
      | Ok text =>
          if negb (truthy text) then
            reindex_loop service stop' l
              {| working := working p; sent := sent p;
                 updated := updated p; skipped := skipped p ++ [i] |}
          else
            let (inputs, reply) := create_embedding service text in
            let p' := {| working := working p; sent := sent p ++ inputs;
                         updated := updated p; skipped := skipped p |} in
            match reply with
            | Raise e => (p', Some e)
            | Ok new_embedding =>
                match update_embedding new_embedding i (working p') with
                | Raise e => (p', Some e)
                | Ok t =>
                    reindex_loop service stop' l
                      {| working := t; sent := sent p';
                         updated := updated p' ++ [i];
                         skipped := skipped p' |}
                end
            end
      end = (p', e) -> I p').
  { intros l IH i c stop' p p' e Hp.
    destruct (get c "moduleName" (JStr EmptyString)) as [x|ex].
    2:{ intros [= <- _]. exact Hp. }
    destruct (truthy x) eqn:Hx; simpl.
    2:{ apply IH, Hskip, Hp. }
    pose proof (Hsend p x Hp Hx) as Hp1.
    destruct (service x) as [v|] eqn:Hv.
    2:{ intros [= <- _]. exact Hp1. }
    destruct (update_embedding v i (working p)) as [t|eu] eqn:Hu.
    2:{ intros [= <- _]. exact Hp1. }
    apply IH. exact (Hwrite _ x v i t Hp1 Hv Hu). }
  induction l as [|[i c] l IH]; intros stop p p' e Hp.
  - destruct stop as [[|n]|]; simpl; intros [= <- _]; exact Hp.
  - destruct stop as [[|n]|].
    + simpl. intros [= <- _]. exact Hp.
    + apply (Hbody l IH i c _ p p' e Hp).
    + apply (Hbody l IH i c _ p p' e Hp).
Qed.

Lemma loop_rows_kept (l : list (Z * json)) (stop : option nat)
      (p p' : Progress) (e : option exn) :
  reindex_loop service stop l p = (p', e) ->
  dimension (working p') = dimension (working p)
  /\ List.Forall2 (kept service) (rows (working p)) (rows (working p')).
Proof.
  apply (reindex_loop_invariant
           (fun q => dimension (working q) = dimension (working p)
                     /\ List.Forall2 (kept service)
                          (rows (working p)) (rows (working q)))).
  - intros q i H. exact H.
  - intros q x H _. exact H.
  - intros q x v i t [Hd Hr] Hv Hu. simpl.
    destruct (update_kept x v i _ _ Hv Hu) as [Hd' Hr'].
    split; [congruence | eapply all_kept_trans; eassumption].
  - split; [reflexivity | apply all_kept_refl].
Qed.

Lemma loop_sent_truthy (l : list (Z * json)) (stop : option nat)
      (p p' : Progress) (e : option exn) :
  List.Forall (fun x => truthy x = true) (sent p) ->
  reindex_loop service stop l p = (p', e) ->
  List.Forall (fun x => truthy x = true) (sent p').
Proof.
  apply (reindex_loop_invariant
           (fun q => List.Forall (fun x => truthy x = true) (sent q))).
  - intros q i H. exact H.
  - intros q x H Hx. simpl. apply List.Forall_app. split; [exact H|].
    constructor; [exact Hx | constructor].
  - intros q x v i t H _ _. exact H.
Qed.

Lemma update_one_row (v : vector) (r : StoryboardRecord)
      (done rest : list StoryboardRecord) :
  List.NoDup (map id (done ++ r :: rest)) ->
  map (fun r0 => if (id r0 =? id r)%Z then set_embedding v r0 else r0)
      (done ++ r :: rest)
  = (done ++ set_embedding v r :: rest)%list.
Proof.
  intros Hnd. rewrite map_app. simpl. rewrite Z.eqb_refl.
  rewrite map_app in Hnd. simpl in Hnd.
  apply List.NoDup_remove_2 in Hnd.
  assert (Hid : forall l, ~ In (id r) (map id l) ->
            map (fun r0 => if (id r0 =? id r)%Z then set_embedding v r0
                           else r0) l = l).
  { induction l as [|a l IH]; simpl; intros H; [reflexivity|].
    destruct (Z.eqb_spec (id a) (id r)) as [Heq|Hne].
    - exfalso. apply H. left. exact Heq.
    - f_equal. apply IH. intros Hin. apply H. right. exact Hin. }
  rewrite !Hid; [reflexivity | |];
    intros Hin; apply Hnd, in_or_app; [right | left]; exact Hin.
Qed.

(** A loop that runs to its end without an exception has given every row
    it was to process its new embedding, and touched no other row. *)
Lemma loop_success_rows (todo : list StoryboardRecord) :
  forall (done : list StoryboardRecord) (stop : option nat)
         (p p' : Progress),
    List.NoDup (map id (done ++ todo)) ->
    rows (working p) = (done ++ todo)%list ->
    reindex_loop service stop (map fetched todo) p = (p', None) ->
    exists todo',
      rows (working p') = (done ++ todo')%list
      /\ List.Forall2 (reembedded service) todo todo'.
Proof.
  induction todo as [|r todo IH]; intros done stop p p' Hnd Hrows.
  - destruct stop as [[|n]|]; simpl; intros [= <-]; exists [];
      (split; [exact Hrows | constructor]).
  - assert (Hbody : forall stop',
      match get (content r) "moduleName" (JStr EmptyString) with
      | Raise e => (p, Some e)
      | Ok text =>
          if negb (truthy text) then
            reindex_loop service stop' (map fetched todo)
              {| working := working p; sent := sent p;
                 updated := updated p; skipped := skipped p ++ [id r] |}
          else
            let (inputs, reply) := create_embedding service text in
            let p1 := {| working := working p; sent := sent p ++ inputs;
                         updated := updated p; skipped := skipped p |} in
            match reply with
            | Raise e => (p1, Some e)
            | Ok new_embedding =>
                match update_embedding new_embedding (id r) (working p1) with
                | Raise e => (p1, Some e)
                | Ok t =>
                    reindex_loop service stop' (map fetched todo)
                      {| working := t; sent := sent p1;
                         updated := updated p1 ++ [id r];
                         skipped := skipped p1 |}
                end
            end
      end = (p', None) ->
      exists todo',
        rows (working p') = (done ++ todo')%list
        /\ List.Forall2 (reembedded service) (r :: todo) todo').
    { intros stop'.
      destruct (get (content r) "moduleName" (JStr EmptyString)) as [x|ex]
        eqn:Hget; [|discriminate].
      destruct (truthy x) eqn:Hx; simpl.
      - destruct (service x) as [v|] eqn:Hv; [|discriminate].
        unfold update_embedding.
        destruct (accepts (dimension (working p)) v); [|discriminate].
        intros Hloop.
        apply (IH (done ++ [set_embedding v r])%list) in Hloop.
        2:{ rewrite <- app_assoc. simpl.
            rewrite map_app in *. simpl in *. exact Hnd. }
        2:{ simpl. rewrite Hrows, <- app_assoc. simpl.
            apply update_one_row, Hnd. }
        destruct Hloop as (todo' & Hrows' & Hall).
        + exists (set_embedding v r :: todo'). split.
          * rewrite Hrows', <- app_assoc. reflexivity.
          * constructor; [|exact Hall].
            exists x. split; [exact Hget|]. rewrite Hx. exists v. auto.
      - intros Hloop.
        apply (IH (done ++ [r])%list) in Hloop.
        2:{ rewrite <- app_assoc. exact Hnd. }
        2:{ simpl. rewrite Hrows, <- app_assoc. reflexivity. }
        destruct Hloop as (todo' & Hrows' & Hall).
        + exists (r :: todo'). split.
          * rewrite Hrows', <- app_assoc. reflexivity.
          * constructor; [|exact Hall].
            exists x. split; [exact Hget|]. rewrite Hx. reflexivity. }
    destruct stop as [[|n]|].
    + simpl. discriminate.
    + apply Hbody.
    + apply Hbody.
Qed.




(** C8 as stated fails: the generator checks nothing.  A text of spaces
    is sent to the service and embedded, by the generator and by the
    job; the empty text is sent by the generator as well. *)
Lemma blank_text_is_embedded :
  create_embedding (always [1%Q]) (JStr "   ")
  = ([JStr "   "], Ok [1%Q])
  /\ create_embedding (always [1%Q]) (JStr EmptyString)
     = ([JStr EmptyString], Ok [1%Q])
  /\ requests (migrate_embeddings (always [1%Q]) None
                 {| dimension := None;
                    rows := [storyboard 1 "   " None] |})
     = [JStr "   "].
Proof. vm_compute. repeat split; reflexivity. Qed.

(** C8, amended.  The job never sends an empty text to the embedding
    service: a record whose module name is absent or empty is skipped.
    The generator itself sends whatever it is given and fails only when
    the service does. *)
Theorem empty_text_is_skipped_by_the_job (stop : option nat) (t : Table) :
  List.Forall (fun input => truthy input = true)
              (requests (migrate_embeddings service stop t))
  /\ ~ In (JStr EmptyString) (requests (migrate_embeddings service stop t))
  /\ forall text : json,
      create_embedding service text
      = ([text], match service text with
                 | Some v => Ok v
                 | None => Raise ServiceError
                 end).
Proof.
  assert (H : List.Forall (fun input => truthy input = true)
                (requests (migrate_embeddings service stop t))).
  { unfold migrate_embeddings.
    destruct (reindex_loop service stop _ _) as [p e] eqn:Hloop. simpl.
    apply (loop_sent_truthy _ _
             {| working := t; sent := []; updated := []; skipped := [] |}
             _ _ (List.Forall_nil _) Hloop). }
  split; [exact H|]. split; [|reflexivity].
  intros Hin. rewrite List.Forall_forall in H. apply H in Hin.
  discriminate Hin.
Qed.

End ReindexingJob.

(** ** The similarity query *)

Section Similarity.

Import Search.

Local Open Scope list_scope.

Variable q : vector.

Lemma nulls_last_refl (a : option R) : nulls_last a a.
Proof. destruct a; simpl; [apply Rle_refl | exact I]. Qed.

Lemma nulls_last_trans (a b c : option R) :
  nulls_last a b -> nulls_last b c -> nulls_last a c.
Proof.
  destruct a, b, c; simpl; try tauto. apply Rle_trans.
Qed.

Lemma nulls_last_total (a b : option R) : nulls_last a b \/ nulls_last b a.
Proof.
  destruct a as [x|], b as [y|]; simpl; try tauto.
  destruct (Rle_or_lt x y) as [H|H]; [left; exact H | right; lra].
Qed.

#[local] Instance closer_transitive : Transitive (closer q).
Proof. intros r1 r2 r3. apply nulls_last_trans. Qed.

#[local] Instance closer_total : Total (closer q).
Proof. intros r1 r2. apply nulls_last_total. Qed.

(** Ascending distance is descending score. *)
Lemma closer_descending (r1 r2 : StoryboardRecord) :
  closer q r1 r2 ->
  descending (similarity (select q r1)) (similarity (select q r2)).
Proof.
  unfold closer, select, descending. simpl.
  destruct (distance q r1), (distance q r2); simpl; try tauto.
  intros H. lra.
Qed.

Lemma sorted_descending (l : list StoryboardRecord) :
  Sorted (closer q) l ->
  Sorted (fun h h' => descending (similarity h) (similarity h'))
         (map (select q) l).
Proof.
  induction 1 as [|r l Hl IH Hhd]; simpl; constructor; [exact IH|].
  destruct Hhd as [|r' l' Hr]; simpl; constructor.
  apply closer_descending, Hr.
Qed.

Lemma strongly_sorted_split (l1 l2 : list StoryboardRecord) :
  StronglySorted (closer q) (l1 ++ l2) ->
  StronglySorted (closer q) l1
  /\ StronglySorted (closer q) l2
  /\ forall r r', In r l1 -> In r' l2 -> closer q r r'.
Proof.
  induction l1 as [|x l1 IH]; simpl; intros H.
  - repeat split; [constructor | exact H | intros r r' []].
  - inversion H as [|? ? Hss Hall]; subst.
    destruct (IH Hss) as (H1 & H2 & H12).
    rewrite List.Forall_forall in Hall.
    repeat split; [| exact H2 |].
    + constructor; [exact H1|]. rewrite List.Forall_forall.
      intros y Hy. apply Hall, in_or_app. left. exact Hy.
    + intros r r' [<-|Hr] Hr'.
      * apply Hall, in_or_app. right. exact Hr'.
      * apply H12; assumption.
Qed.

(** Two neighbours at the same distance may change places. *)
Lemma sorted_swap_tied (l1 l2 : list StoryboardRecord)
      (a b : StoryboardRecord) :
  distance q a = distance q b ->
  Sorted (closer q) (l1 ++ a :: b :: l2) ->
  Sorted (closer q) (l1 ++ b :: a :: l2).
Proof.
  intros Htie Hs. apply StronglySorted_Sorted.
  apply Sorted_StronglySorted in Hs; [|apply closer_transitive].
  induction l1 as [|x l1 IH]; simpl in *.
  - inversion Hs as [|? ? Hb Ha]; subst.
    inversion Hb as [|? ? Hl2 Hbl]; subst.
    inversion Ha as [|? ? Hab Hal]; subst.
    constructor; [constructor; assumption|].
    constructor; [|exact Hbl].
    unfold closer. rewrite Htie. apply nulls_last_refl.
  - inversion Hs as [|? ? Hrest Hx]; subst.
    constructor; [apply IH, Hrest|].
    rewrite List.Forall_forall in *. intros y Hy. apply Hx.
    apply in_app_or in Hy. apply in_or_app.
    destruct Hy as [Hy|[<-|[<-|Hy]]]; [left; exact Hy | right ..].
    + right; left; reflexivity.
    + left; reflexivity.
    + right; right; exact Hy.
Qed.

End Similarity.

Section Answers.

Import Search.

(** The statement always has an answer: the plan that scans and sorts
    gives one of those the statement allows. *)
Lemma scan_and_sort_answers (t : Table) (q : vector) (k : nat) :
  sql_query t q k (scan_and_sort t q k).
Proof.
  unfold scan_and_sort.
  destruct q as [|x q'].
  - apply query_raises. left. reflexivity.
  - destruct (forallb (comparable (x :: q')) (rows t)) eqn:Hc.
    + apply query_returns; [discriminate | exact Hc | |].
      * symmetry. apply merge_sort_Permutation.
      * apply Sorted_merge_sort. apply closer_total.
    + apply query_raises. right. exact Hc.
Qed.

Lemma answer_inv (t : Table) (q : vector) (k : nat) (hits : list Hit) :
  sql_query t q k (Ok hits) ->
  exists ordered,
    q <> [] /\ forallb (comparable q) (rows t) = true
    /\ Permutation (rows t) ordered /\ Sorted (closer q) ordered
    /\ hits = map (select q) (firstn k ordered).
Proof.
  intros H. inversion H as [|ordered Hq Hc Hp Hs Heq]; subst.
  exists ordered. auto.
Qed.

(** C4 as stated fails.  Asked for three rows of a table of two, one of
    them without embedding, the query returns two rows, and the second has
    no score: there is no stored embedding to measure. *)
Lemma row_without_embedding_is_returned :
  let q := [1; 0]%Q in
  let a := storyboard 1 "A" (Some [1; 0]%Q) in
  let b := storyboard 2 "B" None in
  let t := {| dimension := None; rows := [a; b] |} in
  sql_query t q 3 (Ok [select q a; select q b])
  /\ similarity (select q b) = None
  /\ forall res, sql_query t q 3 res -> res = Ok [select q a; select q b].
Proof.
  intros q a b t. split; [|split; [reflexivity|]].
  - apply (query_returns t q 3 [a; b]);
      [discriminate | reflexivity | reflexivity |].
    repeat constructor.
  - intros res H. inversion H as [[Hq|Hc]|ordered Hq Hc Hp Hs]; subst.
    + discriminate Hq.
    + discriminate Hc.
    + apply Permutation_length_2_inv in Hp as [->| ->]; [reflexivity|].
      exfalso. inversion Hs as [|? ? _ Hhd]; subst.
      inversion Hhd as [|? ? Hba]; subst. exact Hba.
Qed.

(** C4, amended.  Every answer of the query is ranked: see [ranked]. *)
Theorem answer_is_ranked (t : Table) (q : vector) (k : nat)
        (hits : list Hit) :
  sql_query t q k (Ok hits) -> ranked t q k hits.
Proof.
  intros H. destruct (answer_inv _ _ _ _ H) as (l & Hq & Hc & Hp & Hs & ->).
  assert (Hss : StronglySorted (closer q) (firstn k l ++ skipn k l)).
  { rewrite firstn_skipn. apply Sorted_StronglySorted; [|exact Hs].
    apply closer_transitive. }
  destruct (strongly_sorted_split q _ _ Hss) as (Hf & _ & Hfr).
  exists (firstn k l), (skipn k l). repeat split.
  - rewrite firstn_skipn. exact Hp.
  - rewrite length_firstn, (Permutation_length Hp). reflexivity.
  - exact Hfr.
  - apply sorted_descending, StronglySorted_Sorted, Hf.
  - intros r e _ He. unfold select, distance. simpl. rewrite He. reflexivity.
  - intros r _ He. unfold select, distance. simpl. rewrite He. reflexivity.
Qed.

Lemma answer_is_ranked_on_two_rows :
  let q := [1; 0]%Q in
  let a := storyboard 1 "A" (Some [1; 0]%Q) in
  let b := storyboard 2 "B" None in
  ranked {| dimension := None; rows := [a; b] |} q 3
         [select q a; select q b].
Proof.
  intros q a b.
  apply (answer_is_ranked {| dimension := None; rows := [a; b] |} q 3).
  apply (query_returns _ q 3 [a; b]);
    [discriminate | reflexivity | reflexivity |].
  repeat constructor.
Defined.

(** C5 as stated fails.  A table whose only row has no embedding gives
    that row, not an empty result; a table whose only vector is shorter
    than the query vector gives a database error, not an empty result. *)
Lemma unmatched_rows_are_not_left_out :
  let b := storyboard 2 "B" None in
  let a := storyboard 1 "A" (Some [1; 0]%Q) in
  let only_b := {| dimension := None; rows := [b] |} in
  let only_a := {| dimension := None; rows := [a] |} in
  (sql_query only_b [1; 0]%Q 3 (Ok [select [1; 0]%Q b])
   /\ ~ sql_query only_b [1; 0]%Q 3 (Ok []))
  /\ (sql_query only_a [1; 0; 0]%Q 3 (Raise DatabaseError)
      /\ ~ sql_query only_a [1; 0; 0]%Q 3 (Ok [])).
Proof.
  intros b a only_b only_a. repeat split.
  - apply (query_returns only_b _ 3 [b]);
      [discriminate | reflexivity | reflexivity | repeat constructor].
  - intros H. destruct (answer_inv _ _ _ _ H) as (l & _ & _ & Hp & _ & Hl).
    apply Permutation_length_1_inv in Hp as ->. discriminate Hl.
  - apply query_raises. right. reflexivity.
  - intros H. destruct (answer_inv _ _ _ _ H) as (l & _ & Hc & _).
    discriminate Hc.
Qed.

(** C5, amended.  No row is filtered out.  A query that succeeds returns
    as many rows as the limit and the table allow, whether they have an
    embedding or not (those without come last, see C4); on an empty table
    it returns the empty sequence and no error.  A stored vector whose
    length differs from that of the query vector makes the query fail
    with a database error.  The query always has an answer of one of
    these kinds: the plan that scans and sorts gives one. *)
Theorem every_row_takes_part (t : Table) (q : vector) (k : nat) :
  sql_query t q k (scan_and_sort t q k)
  /\ forall res : result (list Hit),
      sql_query t q k res -> unfiltered t q k res.
Proof.
  split; [apply scan_and_sort_answers|].
  intros res H. unfold unfiltered.
  inversion H as [[Hq|Hc]|ordered Hq Hc Hp Hs]; subst.
  - repeat split; congruence.
  - repeat split; try congruence.
    intros Hnil _. rewrite Hnil in Hc. discriminate Hc.
  - repeat split.
    + intros Hnil _. rewrite Hnil in Hp.
      apply Permutation_nil in Hp as ->. destruct k; reflexivity.
    + intros hits [= <-].
      rewrite length_map, length_firstn, (Permutation_length Hp).
      reflexivity.
    + congruence.
    + intros _ _. eexists. reflexivity.
Qed.

Lemma every_row_takes_part_on_empty_table :
  unfiltered {| dimension := None; rows := [] |} [1; 0]%Q 3 (Ok []).
Proof.
  apply (proj2 (every_row_takes_part {| dimension := None; rows := [] |}
                                     [1; 0]%Q 3) (Ok [])).
  apply (query_returns _ _ 3 []);
    [discriminate | reflexivity | reflexivity | constructor].
Defined.

(** C7 as stated fails.  Two records with the same embedding, inserted
    one after the other: the answer that lists the later one first is
    allowed, and with a limit of one the later record alone is. *)
Lemma later_record_may_come_first :
  let q := [1; 0]%Q in
  let a := storyboard 1 "A" (Some [1; 0]%Q) in
  let b := storyboard 2 "B" (Some [1; 0]%Q) in
  let t := {| dimension := None; rows := [a; b] |} in
  similarity (select q a) = similarity (select q b)
  /\ sql_query t q 2 (Ok [select q b; select q a])
  /\ sql_query t q 1 (Ok [select q b]).
Proof.
  intros q a b t.
  assert (Hs : Sorted (closer q) [b; a]).
  { apply Sorted_cons; [apply Sorted_cons; constructor|].
    apply HdRel_cons. exact (nulls_last_refl (distance q a)). }
  split; [reflexivity|]. split.
  - apply (query_returns t q 2 [b; a]);
      [discriminate | reflexivity | apply perm_swap | exact Hs].
  - apply (query_returns t q 1 [b; a]);
      [discriminate | reflexivity | apply perm_swap | exact Hs].
Qed.

(** C7, amended.  The statement orders by distance only.  Where two rows
    at the same distance stand next to each other in an ordering the
    query may use, the ordering with the two exchanged may be used as
    well: which of two tied records comes first, and which of them is
    kept when the limit falls between them, is not determined. *)
Theorem tied_rows_in_either_order
        (t : Table) (q : vector) (k : nat)
        (l1 l2 : list StoryboardRecord) (a b : StoryboardRecord) :
  q <> [] ->
  forallb (comparable q) (rows t) = true ->
  Permutation (rows t) (l1 ++ a :: b :: l2) ->
  Sorted (closer q) (l1 ++ a :: b :: l2) ->
  distance q a = distance q b ->
  sql_query t q k (Ok (map (select q) (firstn k (l1 ++ a :: b :: l2))))
  /\ sql_query t q k (Ok (map (select q) (firstn k (l1 ++ b :: a :: l2)))).
Proof.
  intros Hq Hc Hp Hs Htie. split.
  - apply query_returns; assumption.
  - apply query_returns; [assumption | assumption | |].
    + rewrite Hp. apply Permutation_app_head, perm_swap.
    + apply sorted_swap_tied; assumption.
Qed.

Lemma tied_rows_in_either_order_on_two_rows :
  let q := [1; 0]%Q in
  let a := storyboard 1 "A" (Some [1; 0]%Q) in
  let b := storyboard 2 "B" (Some [1; 0]%Q) in
  let t := {| dimension := None; rows := [a; b] |} in
  sql_query t q 1 (Ok (map (select q) (firstn 1 ([] ++ [a; b]))))
  /\ sql_query t q 1 (Ok (map (select q) (firstn 1 ([] ++ [b; a])))).
Proof.
  intros q a b t.
  apply (tied_rows_in_either_order t q 1 [] [] a b);
    [discriminate | reflexivity | reflexivity | | reflexivity].
  apply Sorted_cons; [apply Sorted_cons; constructor|].
  apply HdRel_cons. exact (nulls_last_refl (distance q a)).
Defined.

End Answers.

(** ** More on the batch driver *)

Section BatchAccounts.

Import Converter.

Variable gemini : Gemini.
Variable disk : Disk.
Variable out : string.

Lemma extract_recognized (filename : string) (data : FileData) :
  extract filename data = None <-> recognized_name filename = false.
Proof.
  unfold extract, recognized_name.
  destruct (Text.endswith filename ".pdf");
    destruct (Text.endswith filename ".pptx");
    destruct (Text.endswith filename ".txt"); simpl;
    split; intros H; try reflexivity; discriminate H.
Qed.

(** The files written and the exception raised do not depend on the names
    reported so far. *)
Lemma process_files_report_free (l : list (string * FileData)) :
  forall b1 b2 : Batch,
    written b1 = written b2 -> raised b1 = raised b2 ->
    written (process_files gemini disk out l b1)
    = written (process_files gemini disk out l b2)
    /\ raised (process_files gemini disk out l b1)
       = raised (process_files gemini disk out l b2).
Proof.
  induction l as [|[f d] l IH]; intros b1 b2 Hw Hr; [split; assumption|].
  simpl. destruct (extract f d) as [[text|e]|].
  - destruct (snd (convert_to_json_with_gemini gemini text)) as [j|e];
      [destruct (disk (output_path out f) j)|];
      apply IH; simpl; congruence.
  - simpl. split; [exact Hw | reflexivity].
  - apply IH; assumption.
Qed.

Lemma failed_grows (l : list (string * FileData)) :
  forall (b : Batch) (f : string),
    In f (failed b) -> In f (failed (process_files gemini disk out l b)).
Proof.
  induction l as [|[f' d] l IH]; intros b f Hf; [exact Hf|].
  simpl. destruct (extract f' d) as [[text|e]|].
  - destruct (snd (convert_to_json_with_gemini gemini text)) as [j|e];
      [destruct (disk (output_path out f') j)|];
      apply IH; simpl; try exact Hf; apply in_or_app; left; exact Hf.
  - exact Hf.
  - apply IH, Hf.
Qed.



Lemma raised_stays (l : list (string * FileData)) :
  forall (b : Batch) (e : exn),
    raised b = Some e -> raised (process_files gemini disk out l b) <> None.
Proof.
  induction l as [|[f d] l IH]; intros b e Hb; [simpl; congruence|].
  simpl. destruct (extract f d) as [[text|e']|].
  - destruct (snd (convert_to_json_with_gemini gemini text)) as [j|e'];
      [destruct (disk (output_path out f) j)|];
      apply (IH _ e); exact Hb.
  - discriminate.
  - apply (IH _ e), Hb.
Qed.

(** X1.  A file whose conversion fails (the service raises, or the reply
    is not JSON even once stripped) costs the batch nothing else: the
    files written and the way the batch ends are those of the batch
    without that file, and the name is reported as failed. *)
Theorem conversion_failure_is_isolated
        (existing : gmap string Stored)
        (before after : list (string * FileData))
        (filename : string) (data : FileData) (text : string) (e : exn) :
  extract filename data = Some (Ok text) ->
  snd (convert_to_json_with_gemini gemini text) = Raise e ->
  let run := process_folder gemini disk (before ++ (filename, data) :: after)
                            out existing in
  let without := process_folder gemini disk (before ++ after) out existing in
  written run = written without
  /\ raised run = raised without
  /\ (raised (process_folder gemini disk before out existing) = None ->
      In filename (failed run)).
Proof.
  intros Hx Hc. unfold process_folder. simpl.
  rewrite !(process_files_app gemini disk out before) by reflexivity.
  destruct (raised (process_files gemini disk out before _)) eqn:Hb.
  - repeat split. discriminate.
  - rewrite (conversion_failure_is_skipped gemini disk out _ _ _ _ after _ Hx Hc).
    set (b := process_files gemini disk out before _) in *.
    destruct (process_files_report_free after
                {| written := written b; failed := failed b ++ [filename];
                   raised := raised b |} b eq_refl eq_refl) as [Hw Hr].
    repeat split; [exact Hw | exact Hr |].
    intros _. apply failed_grows. simpl. apply in_or_app. right. left.
    reflexivity.
Qed.

(** X2.  Files with another extension do not exist for the batch: its
    result is that of the batch over the files with a recognized
    extension alone. *)
Theorem other_extensions_are_ignored
        (listing : list (string * FileData)) (b : Batch) :
  process_files gemini disk out listing b
  = process_files gemini disk out
      (List.filter (fun entry => recognized_name (fst entry)) listing) b.
Proof.
  revert b. induction listing as [|[f d] l IH]; intros b; [reflexivity|].
  simpl List.filter. destruct (recognized_name f) eqn:Hf.
  - simpl. destruct (extract f d) as [[text|e]|] eqn:Hx.
    + destruct (snd (convert_to_json_with_gemini gemini text)) as [j|e];
        [destruct (disk (output_path out f) j)|]; apply IH.
    + reflexivity.
    + apply extract_recognized in Hx. congruence.
  - simpl. apply (extract_recognized f d) in Hf. rewrite Hf. apply IH.
Qed.

(** X3.  The batch writes at the output paths of the files it lists and
    nowhere else: whatever was at another path is there afterwards. *)
Theorem other_paths_are_untouched
        (listing : list (string * FileData)) (b : Batch) (p : string) :
  ~ In p (map (fun entry => output_path out (fst entry)) listing) ->
  written (process_files gemini disk out listing b) !! p = written b !! p.
Proof.
  revert b. induction listing as [|[f d] l IH]; intros b Hp; [reflexivity|].
  simpl in Hp. simpl.
  assert (Hl : ~ In p (map (fun entry => output_path out (fst entry)) l))
    by tauto.
  assert (Hne : output_path out f <> p) by tauto.
  destruct (extract f d) as [[text|e]|].
  - destruct (snd (convert_to_json_with_gemini gemini text)) as [j|e];
      [destruct (disk (output_path out f) j)|];
      rewrite (IH _ Hl); simpl; try reflexivity;
      apply lookup_insert_ne, Hne.
  - reflexivity.
  - apply IH, Hl.
Qed.


End BatchAccounts.

Section BatchAccountsExamples.

Import Converter.

Lemma conversion_failure_is_isolated_on_prose :
  let run := process_folder echo reliable
               [("a.txt", TextFile "[1]"); ("b.txt", TextFile "no json");
                ("c.txt", TextFile "[3]")] "out" ∅ in
  let without := process_folder echo reliable
               [("a.txt", TextFile "[1]"); ("c.txt", TextFile "[3]")]
               "out" ∅ in
  written run = written without
  /\ raised run = raised without
  /\ (raised (process_folder echo reliable [("a.txt", TextFile "[1]")]
                             "out" ∅)
      = None -> In "b.txt" (failed run)).
Proof.
  apply (conversion_failure_is_isolated echo reliable "out" ∅
           [("a.txt", TextFile "[1]")] [("c.txt", TextFile "[3]")]
           "b.txt" (TextFile "no json") "no json" JSONDecodeError);
    vm_compute; reflexivity.
Defined.

Lemma other_paths_are_untouched_example :
  let b := {| written := <["out/keep.json" := Whole JNull]> ∅;
              failed := []; raised := None |} in
  written (process_files echo reliable "out" [("a.txt", TextFile "[1]")] b)
    !! "out/keep.json"
  = written b !! "out/keep.json".
Proof.
  intros b.
  apply (other_paths_are_untouched echo reliable "out"
           [("a.txt", TextFile "[1]")] b "out/keep.json").
  vm_compute. intros [H|[]]. discriminate H.
Defined.


End BatchAccountsExamples.

(** ** More on extraction and conversion *)

Section ConversionEdges.

Import Json Converter.

Lemma take_chars_all (l : list ascii) :
  forall n : nat, (Text.char_count l <= n)%nat -> Text.take_chars n l = l.
Proof.
  unfold Text.char_count.
  induction l as [|c l IH]; intros n H; [reflexivity|].
  simpl in H |- *. destruct (Text.is_continuation c); simpl in H.
  - rewrite IH by exact H. reflexivity.
  - destruct n as [|n]; [lia|]. rewrite IH by lia. reflexivity.
Qed.

Lemma take_chars_app (l1 l2 : list ascii) :
  forall n : nat,
    (n <= Text.char_count l1)%nat ->
    Text.take_chars 0 l2 = [] ->
    Text.take_chars n (l1 ++ l2) = Text.take_chars n l1.
Proof.
  unfold Text.char_count.
  induction l1 as [|c l1 IH]; intros n H Hl2.
  - simpl in H. assert (n = O) as -> by lia. exact Hl2.
  - simpl in H |- *. destruct (Text.is_continuation c); simpl in H.
    + rewrite IH by assumption. reflexivity.
    + destruct n as [|n]; [reflexivity|]. rewrite IH by (assumption || lia).
      reflexivity.
Qed.

(** X5.  The converter reads the first 25000 characters of a document
    and nothing else: characters after them change neither the reply
    parsed nor the result, counting characters and not bytes. *)
Theorem text_beyond_limit_is_ignored
        (gemini : Gemini) (text extra : string) :
  (25000 <= Text.char_count (Text.chars text))%nat ->
  starts_character extra = true ->
  convert_to_json_with_gemini gemini (text ++ extra)
  = convert_to_json_with_gemini gemini text.
Proof.
  intros H Hextra. unfold convert_to_json_with_gemini, Text.prefix.
  rewrite chars_app, take_chars_app; [reflexivity | exact H |].
  unfold starts_character in Hextra.
  destruct (Text.chars extra) as [|c l]; [reflexivity|]. simpl.
  destruct (Text.is_continuation c); [discriminate Hextra | reflexivity].
Qed.

Lemma text_beyond_limit_is_ignored_example :
  convert_to_json_with_gemini echo (long_text ++ ", 1]")
  = convert_to_json_with_gemini echo long_text.
Proof.
  apply (text_beyond_limit_is_ignored echo long_text ", 1]").
  - apply Nat.leb_le. vm_compute. reflexivity.
  - vm_compute. reflexivity.
Defined.

(** X6.  A document of at most 25000 characters reaches the service
    whole, however many bytes its characters take. *)
Theorem short_text_is_sent_whole (gemini : Gemini) (text : string) :
  (Text.char_count (Text.chars text) <= 25000)%nat ->
  convert_to_json_with_gemini gemini text
  = match gemini text with
    | Some json_response => decode_reply json_response
    | None => ([], Raise ServiceError)
    end.
Proof.
  intros H. unfold convert_to_json_with_gemini, Text.prefix.
  rewrite take_chars_all by exact H. rewrite text_chars. reflexivity.
Qed.

Lemma short_text_is_sent_whole_example :
  convert_to_json_with_gemini echo accented
  = match echo accented with
    | Some json_response => decode_reply json_response
    | None => ([], Raise ServiceError)
    end.
Proof.
  apply (short_text_is_sent_whole echo accented).
  apply Nat.leb_le. vm_compute. reflexivity.
Defined.




(** X8.  A name that is nothing but dots before its extension (a hidden
    file such as [.pdf]) has no root to cut: the whole name, extension
    included, is kept in front of [.json]. *)
Theorem dotted_name_keeps_extension (out base ext : string) :
  In ext recognized ->
  forallb (Ascii.eqb ".") (Text.chars base) = true ->
  output_path out (base ++ ext)
  = Text.path_join out ((base ++ ext) ++ ".json").
Proof.
  intros Hext Hdots. unfold output_path, Text.splitext_root.
  rewrite chars_app, rfind_dot_app.
  assert (Hdot : Text.rfind_dot (Text.chars ext) (0 + length (Text.chars base))
                   (Text.rfind_dot (Text.chars base) 0 None)
                 = Some (length (Text.chars base))).
  { destruct Hext as [<- | [<- | [<- | []]]]; reflexivity. }
  rewrite Hdot, firstn_app, Nat.sub_diag, firstn_all. simpl firstn.
  rewrite app_nil_r, Hdots. reflexivity.
Qed.

Lemma dotted_name_keeps_extension_example :
  output_path "storyboards_json" ("." ++ ".pdf")
  = Text.path_join "storyboards_json" (("." ++ ".pdf") ++ ".json").
Proof.
  apply (dotted_name_keeps_extension "storyboards_json" "." ".pdf");
    [left; reflexivity | reflexivity].
Defined.

End ConversionEdges.

(** ** The text of the second attempt *)

Section SecondAttempt.

Import Json Converter.

Local Open Scope list_scope.

Variable cs : list ascii.






End SecondAttempt.

Section SecondAttemptText.

Import Json Converter.



End SecondAttemptText.

(** ** More on the [UPDATE] statement and the column migration *)

Section UpdateAlgebra.

Lemma table_eta (t : Table) :
  {| dimension := dimension t; rows := rows t |} = t.
Proof. destruct t; reflexivity. Qed.

Lemma update_ok (v : vector) (rid : Z) (t : Table) :
  accepts (dimension t) v = true ->
  update_embedding v rid t
  = Ok {| dimension := dimension t;
          rows := map (fun r => if (id r =? rid)%Z then set_embedding v r
                                else r) (rows t) |}.
Proof. intros H. unfold update_embedding. rewrite H. reflexivity. Qed.

Lemma update_ok_inv (v : vector) (rid : Z) (t t' : Table) :
  update_embedding v rid t = Ok t' ->
  accepts (dimension t) v = true
  /\ t' = {| dimension := dimension t;
             rows := map (fun r => if (id r =? rid)%Z then set_embedding v r
                                   else r) (rows t) |}.
Proof.
  unfold update_embedding. destruct (accepts (dimension t) v); [|discriminate].
  intros [= <-]. split; reflexivity.
Qed.

(** X10.  An [UPDATE] for an identifier no row carries is not an error:
    it succeeds and the table is as before. *)
Theorem update_of_unknown_id_changes_nothing
        (v : vector) (rid : Z) (t : Table) :
  ~ In rid (map id (rows t)) ->
  accepts (dimension t) v = true ->
  update_embedding v rid t = Ok t.
Proof.
  intros Hid Hv. rewrite update_ok by exact Hv. f_equal.
  rewrite <- (table_eta t) at 3. f_equal.
  induction (rows t) as [|r l IH]; [reflexivity|].
  simpl in *. destruct (Z.eqb_spec (id r) rid) as [Heq|Hne]; [tauto|].
  f_equal. apply IH. tauto.
Qed.

Lemma update_of_unknown_id_changes_nothing_example :
  update_embedding [1; 0]%Q 9
    {| dimension := Some 2%nat; rows := [storyboard 1 "A" None] |}
  = Ok {| dimension := Some 2%nat; rows := [storyboard 1 "A" None] |}.
Proof.
  apply (update_of_unknown_id_changes_nothing [1; 0]%Q 9
           {| dimension := Some 2%nat; rows := [storyboard 1 "A" None] |}).
  - simpl. intros [H|[]]. discriminate H.
  - reflexivity.
Defined.

(** X11.  The last write wins: updating a record that has just been
    updated gives the table that the second update alone gives. *)
Theorem second_update_overwrites_first
        (v1 v2 : vector) (rid : Z) (t t1 : Table) :
  update_embedding v1 rid t = Ok t1 ->
  update_embedding v2 rid t1 = update_embedding v2 rid t.
Proof.
  intros H1. apply update_ok_inv in H1 as [_ ->].
  unfold update_embedding. simpl.
  destruct (accepts (dimension t) v2); [|reflexivity].
  f_equal. f_equal. rewrite map_map. apply map_ext. intros r.
  destruct (id r =? rid)%Z eqn:Hr; simpl; rewrite Hr; reflexivity.
Qed.

Lemma second_update_overwrites_first_example :
  update_embedding [0; 1]%Q 1
    {| dimension := None; rows := [storyboard 1 "A" (Some [1; 0]%Q)] |}
  = update_embedding [0; 1]%Q 1
      {| dimension := None; rows := [storyboard 1 "A" None] |}.
Proof.
  apply (second_update_overwrites_first [1; 0]%Q [0; 1]%Q 1
           {| dimension := None; rows := [storyboard 1 "A" None] |}).
  reflexivity.
Defined.

(** X12.  Updates of two different records do not depend on their order:
    done one way or the other they give the same table. *)
Theorem updates_of_different_records_commute
        (v1 v2 : vector) (rid1 rid2 : Z) (t t1 t2 : Table) :
  rid1 <> rid2 ->
  update_embedding v1 rid1 t = Ok t1 ->
  update_embedding v2 rid2 t = Ok t2 ->
  update_embedding v2 rid2 t1 = update_embedding v1 rid1 t2
  /\ exists t12, update_embedding v2 rid2 t1 = Ok t12.
Proof.
  intros Hne H1 H2.
  apply update_ok_inv in H1 as [Ha1 ->].
  apply update_ok_inv in H2 as [Ha2 ->].
  unfold update_embedding. simpl. rewrite Ha1, Ha2.
  split; [|eexists; reflexivity].
  f_equal. f_equal. rewrite !map_map. apply map_ext. intros r.
  destruct (id r =? rid1)%Z eqn:E1; destruct (id r =? rid2)%Z eqn:E2;
    simpl; rewrite ?E1, ?E2; try reflexivity.
  apply Z.eqb_eq in E1, E2. congruence.
Qed.

Lemma updates_of_different_records_commute_example :
  let t := {| dimension := None;
              rows := [storyboard 1 "A" None; storyboard 2 "B" None] |} in
  let t1 := {| dimension := None;
               rows := [storyboard 1 "A" (Some [1; 0]%Q);
                        storyboard 2 "B" None] |} in
  let t2 := {| dimension := None;
               rows := [storyboard 1 "A" None;
                        storyboard 2 "B" (Some [0; 1]%Q)] |} in
  update_embedding [0; 1]%Q 2 t1 = update_embedding [1; 0]%Q 1 t2
  /\ exists t12, update_embedding [0; 1]%Q 2 t1 = Ok t12.
Proof.
  intros t t1 t2.
  apply (updates_of_different_records_commute
           [1; 0]%Q [0; 1]%Q 1 2 t t1 t2);
    [discriminate | reflexivity | reflexivity].
Defined.

(** X14.  Once the column is migrated, an [UPDATE] is accepted exactly
    when the vector has 1536 components: a vector of any other length is
    refused with a database error. *)
Theorem migrated_column_takes_1536_only
        (t t' : Table) (v : vector) (rid : Z) :
  migrate_embedding_column t = Ok t' ->
  (length v = 1536%nat -> exists t'', update_embedding v rid t' = Ok t'')
  /\ (length v <> 1536%nat ->
      update_embedding v rid t' = Raise DatabaseError).
Proof.
  unfold migrate_embedding_column.
  destruct (forallb (fits 1536) (rows t)); [|discriminate].
  intros [= <-]. unfold update_embedding, accepts. simpl. split.
  - intros Hl. rewrite Hl. simpl. eexists. reflexivity.
  - intros Hl. apply Nat.eqb_neq in Hl. rewrite Hl.
    rewrite andb_false_r. reflexivity.
Qed.

Lemma migrated_column_takes_1536_only_example :
  (length [1; 0]%Q = 1536%nat ->
   exists t'', update_embedding [1; 0]%Q 1
                 {| dimension := Some 1536%nat;
                    rows := [storyboard 1 "A" None] |} = Ok t'')
  /\ (length [1; 0]%Q <> 1536%nat ->
      update_embedding [1; 0]%Q 1
        {| dimension := Some 1536%nat; rows := [storyboard 1 "A" None] |}
      = Raise DatabaseError).
Proof.
  apply (migrated_column_takes_1536_only
           {| dimension := None; rows := [storyboard 1 "A" None] |}
           {| dimension := Some 1536%nat; rows := [storyboard 1 "A" None] |}
           [1; 0]%Q 1).
  reflexivity.
Defined.

End UpdateAlgebra.

(** ** More on the reindexing job *)

Section ReindexingRuns.

Import Reindex.

Variable service : Embedder.

Lemma reindex_loop_cons (stop : option nat) (i : Z) (c : json)
      (l : list (Z * json)) (p : Progress) :
  stop <> Some O ->
  reindex_loop service stop ((i, c) :: l) p
  = loop_turn service (option_map Nat.pred stop) i c l p.
Proof.
  intros Hstop. unfold loop_turn.
  destruct stop as [[|n]|]; [contradiction Hstop; reflexivity | |]; simpl;
    destruct (get c "moduleName" (JStr EmptyString)) as [x|e];
    try reflexivity;
    destruct (truthy x); simpl; try reflexivity;
    destruct (service x); reflexivity.
Qed.

Lemma reindex_loop_stopped (l : list (Z * json)) (p p' : Progress) :
  reindex_loop service (Some O) l p <> (p', None).
Proof. destruct l; simpl; discriminate. Qed.

(** What a loop that reaches its end has reported and sent. *)
Lemma loop_success_report (todo : list StoryboardRecord) :
  forall (stop : option nat) (p p' : Progress),
    reindex_loop service stop (map fetched todo) p = (p', None) ->
    updated p' = (updated p ++ map id (List.filter has_text todo))%list
    /\ skipped p'
       = (skipped p
          ++ map id (List.filter (fun r => negb (has_text r)) todo))%list
    /\ sent p'
       = (sent p ++ map module_text (List.filter has_text todo))%list.
Proof.
  induction todo as [|r todo IH]; intros stop p p' H.
  - destruct stop as [[|n]|]; simpl in H; try discriminate H;
      injection H as <-; rewrite !app_nil_r; auto.
  - destruct (decide (stop = Some O)) as [->|Hstop].
    { exfalso. exact (reindex_loop_stopped _ _ _ H). }
    simpl map in H. unfold fetched at 1 in H.
    rewrite reindex_loop_cons in H by exact Hstop.
    unfold loop_turn in H.
    destruct (get (content r) "moduleName" (JStr EmptyString)) as [x|e]
      eqn:Hget; [|discriminate H].
    assert (Hht : has_text r = truthy x).
    { unfold has_text, text_to_embed. rewrite Hget. reflexivity. }
    assert (Hmt : module_text r = x).
    { unfold module_text, text_to_embed. rewrite Hget. reflexivity. }
    simpl List.filter. rewrite Hht.
    destruct (truthy x) eqn:Hx; simpl in H |- *.
    + destruct (service x) as [v|]; [|discriminate H].
      destruct (update_embedding v (id r) (working p)) as [t|e];
        [|discriminate H].
      destruct (IH _ _ _ H) as (Hu & Hs & Hr). simpl in Hu, Hs, Hr.
      rewrite Hmt, Hu, Hs, Hr, <- !app_assoc. auto.
    + destruct (IH _ _ _ H) as (Hu & Hs & Hr). simpl in Hu, Hs, Hr.
      rewrite Hu, Hs, Hr, <- !app_assoc. auto.
Qed.

(** A loop that reaches its end met only records it could deal with. *)
Lemma loop_success_embeddable (todo : list StoryboardRecord) :
  forall (stop : option nat) (p p' : Progress),
    reindex_loop service stop (map fetched todo) p = (p', None) ->
    List.Forall (embeddable service (dimension (working p))) todo.
Proof.
  induction todo as [|r todo IH]; intros stop p p' H; [constructor|].
  destruct (decide (stop = Some O)) as [->|Hstop].
  { exfalso. exact (reindex_loop_stopped _ _ _ H). }
  simpl map in H. unfold fetched at 1 in H.
  rewrite reindex_loop_cons in H by exact Hstop.
  unfold loop_turn in H.
  destruct (get (content r) "moduleName" (JStr EmptyString)) as [x|e]
    eqn:Hget; [|discriminate H].
  destruct (truthy x) eqn:Hx; simpl in H.
  - destruct (service x) as [v|] eqn:Hv; [|discriminate H].
    destruct (update_embedding v (id r) (working p)) as [t|e] eqn:Hu;
      [|discriminate H].
    destruct (update_ok_inv _ _ _ _ Hu) as [Ha ->].
    constructor; [|exact (IH _ _ _ H)].
    exists x. split; [exact Hget|]. intros _. exists v. auto.
  - constructor; [|exact (IH _ _ _ H)].
    exists x. split; [exact Hget|]. congruence.
Qed.

(** A loop that is not interrupted and meets only records it can deal
    with reaches its end. *)
Lemma loop_embeddable_success (todo : list StoryboardRecord) :
  forall p : Progress,
    List.Forall (embeddable service (dimension (working p))) todo ->
    exists p', reindex_loop service None (map fetched todo) p = (p', None).
Proof.
  induction todo as [|r todo IH]; intros p H.
  - exists p. reflexivity.
  - inversion H as [|? ? (x & Hget & Hsome) Hrest]; subst.
    simpl map. unfold fetched at 1.
    rewrite reindex_loop_cons by discriminate.
    unfold loop_turn. unfold text_to_embed in Hget. rewrite Hget.
    destruct (truthy x) eqn:Hx; simpl.
    + destruct (Hsome eq_refl) as (v & Hv & Ha).
      rewrite Hv, (update_ok _ _ _ Ha). apply IH. exact Hrest.
    + apply IH. exact Hrest.
Qed.

(** X15.  A run that commits has reported every record once, in scan
    order: as updated if its module name is not empty, as skipped
    otherwise; and it has sent the service exactly the module names of the
    updated records, one request each, in that order. *)
Theorem committed_run_reports_every_record (stop : option nat) (t : Table) :
  outcome (migrate_embeddings service stop t) = None ->
  reported (migrate_embeddings service stop t)
  = map id (List.filter has_text (rows t))
  /\ passed (migrate_embeddings service stop t)
     = map id (List.filter (fun r => negb (has_text r)) (rows t))
  /\ requests (migrate_embeddings service stop t)
     = map module_text (List.filter has_text (rows t)).
Proof.
  unfold migrate_embeddings.
  destruct (reindex_loop service stop _ _) as [p e] eqn:Hloop. simpl.
  intros ->. exact (loop_success_report _ _ _ _ Hloop).
Qed.

(** X16.  A run that is not interrupted commits exactly when every
    record can be dealt with: its content is an object and, if its module
    name is not empty, the service answers it with a vector the column
    accepts. *)
Theorem run_commits_iff_all_embeddable (t : Table) :
  outcome (migrate_embeddings service None t) = None
  <-> List.Forall (embeddable service (dimension t)) (rows t).
Proof.
  unfold migrate_embeddings. split.
  - destruct (reindex_loop service None _ _) as [p e] eqn:Hloop. simpl.
    intros ->. exact (loop_success_embeddable _ _ _ _ Hloop).
  - intros H.
    destruct (loop_embeddable_success (rows t)
                {| working := t; sent := []; updated := []; skipped := [] |}
                H) as [p' Hp'].
    change (map (fun r => (id r, content r)) (rows t))
      with (map fetched (rows t)).
    rewrite Hp'. reflexivity.
Qed.

(** X17.  A record whose vector the column refuses (after the migration
    to 1536 components, any vector of another length) ends the run with
    an exception, and nothing of the run is committed. *)
Theorem refused_vector_commits_nothing
        (stop : option nat) (t : Table) (r : StoryboardRecord)
        (x : json) (v : vector) :
  In r (rows t) ->
  text_to_embed r = Ok x -> truthy x = true ->
  service x = Some v -> accepts (dimension t) v = false ->
  outcome (migrate_embeddings service stop t) <> None
  /\ table (migrate_embeddings service stop t) = t.
Proof.
  intros Hin Hget Hx Hv Ha. unfold migrate_embeddings.
  destruct (reindex_loop service stop _ _) as [p e] eqn:Hloop. simpl.
  destruct e as [e|]; [split; [discriminate | reflexivity]|].
  exfalso.
  pose proof (loop_success_embeddable _ _ _ _ Hloop) as Hall.
  rewrite List.Forall_forall in Hall.
  destruct (Hall r Hin) as (x' & Hget' & Hsome). simpl in Hsome.
  rewrite Hget in Hget'. injection Hget' as <-.
  destruct (Hsome Hx) as (v' & Hv' & Ha'). congruence.
Qed.

Lemma reembedded_again (r r1 r2 : StoryboardRecord) :
  reembedded service r r1 -> reembedded service r1 r2 -> r2 = r1.
Proof.
  intros (x & Hget & H1) (x' & Hget' & H2).
  assert (Hc : content r1 = content r).
  { destruct (truthy x); [destruct H1 as (v & _ & ->) | subst r1];
      reflexivity. }
  unfold text_to_embed in *. rewrite Hc, Hget in Hget'.
  injection Hget' as <-.
  destruct (truthy x); [|exact H2].
  destruct H1 as (v & Hv & ->). destruct H2 as (v' & Hv' & ->).
  rewrite Hv in Hv'. injection Hv' as <-. reflexivity.
Qed.

Lemma reembedded_same_ids (l l1 : list StoryboardRecord) :
  List.Forall2 (reembedded service) l l1 -> map id l1 = map id l.
Proof.
  induction 1 as [|r r1 l l1 (x & _ & H) _ IH]; [reflexivity|].
  simpl. rewrite IH. f_equal.
  destruct (truthy x); [destruct H as (v & _ & ->) | subst r1]; reflexivity.
Qed.

Lemma reembedded_embeddable (dim : option nat) (l l1 : list StoryboardRecord) :
  List.Forall2 (reembedded service) l l1 ->
  List.Forall (embeddable service dim) l ->
  List.Forall (embeddable service dim) l1.
Proof.
  induction 1 as [|r r1 l l1 (x & Hget & H) _ IH]; intros Hall;
    [constructor|].
  inversion Hall as [|? ? Hr Hl]; subst. constructor; [|exact (IH Hl)].
  destruct Hr as (x' & Hget' & Hsome). exists x'. split; [|exact Hsome].
  unfold text_to_embed in *.
  destruct (truthy x); [destruct H as (v & _ & ->) | subst r1];
    exact Hget'.
Qed.

Lemma reembedded_twice (l l1 l2 : list StoryboardRecord) :
  List.Forall2 (reembedded service) l l1 ->
  List.Forall2 (reembedded service) l1 l2 -> l2 = l1.
Proof.
  intros H. revert l2. induction H as [|r r1 l l1 Hr _ IH]; intros l2 H2.
  - inversion H2. reflexivity.
  - inversion H2 as [|? r2 ? l2' Hr2 Hl2]; subst.
    rewrite (reembedded_again _ _ _ Hr Hr2), (IH _ Hl2). reflexivity.
Qed.

(** X18.  Running the job again on what a committed run left commits
    again and leaves the same table: with a service that answers a text
    always with the same vector, re-embedding is idempotent. *)
Theorem second_run_changes_nothing (t : Table) :
  List.NoDup (map id (rows t)) ->
  outcome (migrate_embeddings service None t) = None ->
  outcome (migrate_embeddings service None
             (table (migrate_embeddings service None t))) = None
  /\ table (migrate_embeddings service None
              (table (migrate_embeddings service None t)))
     = table (migrate_embeddings service None t).
Proof.
  intros Hnd Hout.
  assert (Hrun : exists p1,
             reindex_loop service None (map fetched (rows t))
               {| working := t; sent := []; updated := []; skipped := [] |}
             = (p1, None)
             /\ table (migrate_embeddings service None t) = working p1).
  { unfold migrate_embeddings in *.
    change (map (fun r => (id r, content r)) (rows t))
      with (map fetched (rows t)) in *.
    destruct (reindex_loop service None (map fetched (rows t)) _)
      as [p e]. simpl in *. subst e. exists p. auto. }
  destruct Hrun as (p1 & Hloop1 & ->). clear Hout.
  destruct (loop_success_rows service (rows t) [] None
              {| working := t; sent := []; updated := []; skipped := [] |}
              p1 Hnd eq_refl Hloop1)
    as (rows1 & Hrows1 & Hre1). simpl in Hrows1.
  destruct (loop_rows_kept service _ _ _ _ _ Hloop1) as [Hdim1 _].
  simpl in Hdim1.
  pose proof (loop_success_embeddable _ _ _ _ Hloop1) as Hemb. simpl in Hemb.
  assert (Hemb1 : List.Forall (embeddable service (dimension (working p1)))
                    (rows (working p1))).
  { rewrite Hdim1, Hrows1. exact (reembedded_embeddable _ _ _ Hre1 Hemb). }
  unfold migrate_embeddings.
  change (map (fun r => (id r, content r)) (rows (working p1)))
    with (map fetched (rows (working p1))).
  destruct (loop_embeddable_success (rows (working p1))
              {| working := working p1; sent := []; updated := [];
                 skipped := [] |} Hemb1) as [p2 Hloop2].
  rewrite Hloop2. simpl. split; [reflexivity|].
  assert (Hnd1 : List.NoDup (map id (rows (working p1)))).
  { rewrite Hrows1, (reembedded_same_ids _ _ Hre1). exact Hnd. }
  destruct (loop_success_rows service (rows (working p1)) [] None
              {| working := working p1; sent := []; updated := [];
                 skipped := [] |} p2
              Hnd1 eq_refl Hloop2) as (rows2 & Hrows2 & Hre2).
  simpl in Hrows2.
  destruct (loop_rows_kept service _ _ _ _ _ Hloop2) as [Hdim2 _].
  simpl in Hdim2.
  rewrite Hrows1 in Hre2.
  rewrite (reembedded_twice _ _ _ Hre1 Hre2) in Hrows2.
  rewrite <- (table_eta (working p2)), <- (table_eta (working p1)).
  rewrite Hdim2, Hrows2, Hrows1. reflexivity.
Qed.

End ReindexingRuns.

Section ReindexingRunsExamples.

Import Reindex.

Lemma committed_run_reports_every_record_example :
  let t := {| dimension := None;
              rows := [storyboard 1 "A" None;
                       storyboard 2 EmptyString None] |} in
  reported (migrate_embeddings (always [1%Q]) None t)
  = map id (List.filter has_text (rows t))
  /\ passed (migrate_embeddings (always [1%Q]) None t)
     = map id (List.filter (fun r => negb (has_text r)) (rows t))
  /\ requests (migrate_embeddings (always [1%Q]) None t)
     = map module_text (List.filter has_text (rows t)).
Proof.
  intros t.
  apply (committed_run_reports_every_record (always [1%Q]) None t).
  reflexivity.
Defined.

Lemma refused_vector_commits_nothing_example :
  let t := {| dimension := Some 1536%nat;
              rows := [storyboard 1 "A" None] |} in
  outcome (migrate_embeddings (always [1; 0]%Q) None t) <> None
  /\ table (migrate_embeddings (always [1; 0]%Q) None t) = t.
Proof.
  intros t.
  apply (refused_vector_commits_nothing (always [1; 0]%Q) None t
           (storyboard 1 "A" None) (JStr "A") [1; 0]%Q);
    [left; reflexivity | reflexivity | reflexivity | reflexivity
     | vm_compute; reflexivity].
Defined.

Lemma second_run_changes_nothing_example :
  let t := {| dimension := None;
              rows := [storyboard 1 "A" None;
                       storyboard 2 EmptyString None] |} in
  outcome (migrate_embeddings (always [1%Q]) None
             (table (migrate_embeddings (always [1%Q]) None t))) = None
  /\ table (migrate_embeddings (always [1%Q]) None
              (table (migrate_embeddings (always [1%Q]) None t)))
     = table (migrate_embeddings (always [1%Q]) None t).
Proof.
  intros t.
  apply (second_run_changes_nothing (always [1%Q]) t); [|reflexivity].
  simpl. repeat constructor; simpl; intuition discriminate.
Defined.

End ReindexingRunsExamples.

(** ** More on the similarity query *)

Section QueryAlgebra.

Import Search.

Lemma forallb_permutation {A : Type} (f : A -> bool) (l l' : list A) :
  Permutation l l' -> forallb f l = forallb f l'.
Proof.
  induction 1 as [|x l l' _ IH|x y l|l l' l'' _ IH1 _ IH2]; simpl.
  - reflexivity.
  - rewrite IH. reflexivity.
  - destruct (f x), (f y); reflexivity.
  - congruence.
Qed.

Lemma sql_query_permutation (t t' : Table) (q : vector) (k : nat)
      (res : result (list Hit)) :
  Permutation (rows t) (rows t') ->
  sql_query t q k res -> sql_query t' q k res.
Proof.
  intros Hp H. inversion H as [[Hq|Hc]|ordered Hq Hc Hpo Hs]; subst.
  - apply query_raises. left. reflexivity.
  - apply query_raises. right.
    rewrite <- (forallb_permutation _ _ _ Hp). exact Hc.
  - apply query_returns; [exact Hq | | | exact Hs].
    + rewrite <- (forallb_permutation _ _ _ Hp). exact Hc.
    + rewrite <- Hp. exact Hpo.
Qed.

(** X19.  What the query may answer does not depend on the order in
    which the rows are stored: two tables with the same rows have the
    same answers and the same failures. *)
Theorem answers_ignore_storage_order
        (t t' : Table) (q : vector) (k : nat) (res : result (list Hit)) :
  Permutation (rows t) (rows t') ->
  sql_query t q k res <-> sql_query t' q k res.
Proof.
  intros Hp. split; apply sql_query_permutation;
    [exact Hp | symmetry; exact Hp].
Qed.

Lemma answers_ignore_storage_order_example :
  let a := storyboard 1 "A" (Some [1; 0]%Q) in
  let b := storyboard 2 "B" None in
  sql_query {| dimension := None; rows := [a; b] |} [1; 0]%Q 1
            (Ok [select [1; 0]%Q a])
  <-> sql_query {| dimension := None; rows := [b; a] |} [1; 0]%Q 1
                (Ok [select [1; 0]%Q a]).
Proof.
  intros a b.
  apply (answers_ignore_storage_order
           {| dimension := None; rows := [a; b] |}
           {| dimension := None; rows := [b; a] |}).
  apply perm_swap.
Defined.

(** X20.  A limit that is not below the number of rows returns every
    row: the answer lists each stored record once. *)
Theorem large_limit_returns_every_row
        (t : Table) (q : vector) (k : nat) (hits : list Hit) :
  sql_query t q k (Ok hits) ->
  (length (rows t) <= k)%nat ->
  Permutation (map (select q) (rows t)) hits.
Proof.
  intros H Hk.
  destruct (answer_inv _ _ _ _ H) as (l & _ & _ & Hp & _ & ->).
  rewrite firstn_all2 by (rewrite <- (Permutation_length Hp); exact Hk).
  apply Permutation_map, Hp.
Qed.

Lemma large_limit_returns_every_row_example :
  let a := storyboard 1 "A" (Some [1; 0]%Q) in
  Permutation (map (select [1; 0]%Q) [a]) [select [1; 0]%Q a].
Proof.
  intros a.
  apply (large_limit_returns_every_row
           {| dimension := None; rows := [a] |} [1; 0]%Q 3
           [select [1; 0]%Q a]).
  - apply (query_returns {| dimension := None; rows := [a] |} _ 3 [a]);
      [discriminate | reflexivity | reflexivity | repeat constructor].
  - simpl. lia.
Defined.

Lemma Qmult_swap (x y : Q) : (x * y)%Q = (y * x)%Q.
Proof.
  unfold Qmult. f_equal; [apply Z.mul_comm | apply Pos.mul_comm].
Qed.

Lemma dot_swap (a b : vector) : dot a b = dot b a.
Proof.
  unfold dot. f_equal. revert b.
  induction a as [|x a IH]; intros [|y b]; simpl; try reflexivity.
  rewrite IH, Qmult_swap. reflexivity.
Qed.

(** X21.  The distance is symmetric: a stored vector is as far from the
    query as the query is from it. *)
Theorem cosine_distance_is_symmetric (a b : vector) :
  cosine_distance a b = cosine_distance b a.
Proof.
  unfold cosine_distance. rewrite (dot_swap a b), (Rmult_comm (norm a)).
  reflexivity.
Qed.

(** X22.  A record whose stored embedding is the query vector itself,
    not the zero vector, has similarity one. *)
Theorem identical_vector_scores_one (q : vector) (r : StoryboardRecord) :
  embedding r = Some q ->
  (0 < dot q q)%Q ->
  similarity (select q r) = Some 1%R.
Proof.
  intros He Hpos. unfold select, distance. simpl. rewrite He. simpl.
  f_equal. unfold cosine_distance, norm.
  assert (Hx : (0 < Q2R (dot q q))%R).
  { rewrite <- RMicromega.Q2R_0. apply Qreals.Qlt_Rlt. exact Hpos. }
  rewrite sqrt_sqrt by lra. field. lra.
Qed.

Lemma identical_vector_scores_one_example :
  similarity (select [1; 0]%Q (storyboard 1 "A" (Some [1; 0]%Q)))
  = Some 1%R.
Proof.
  apply (identical_vector_scores_one [1; 0]%Q
           (storyboard 1 "A" (Some [1; 0]%Q)));
    [reflexivity | vm_compute; reflexivity].
Defined.

(** X13.  Once the column is migrated to 1536 components, a query vector
    of another length cannot be compared with a stored embedding: as soon
    as one row has an embedding, the similarity query fails with a
    database error and returns no row. *)
Theorem migrated_table_refuses_other_query_lengths
        (t t' : Table) (q : vector) (k : nat) (res : result (list Hit)) :
  migrate_embedding_column t = Ok t' ->
  length q <> 1536%nat ->
  (exists r, In r (rows t) /\ has_embedding r = true) ->
  sql_query t' q k res <-> res = Raise DatabaseError.
Proof.
  unfold migrate_embedding_column.
  destruct (forallb (fits 1536) (rows t)) eqn:Hfits; [|discriminate].
  intros [= <-] Hq (r & Hr & He).
  assert (Hc : forallb (comparable q) (rows t) = false).
  { apply not_true_is_false. intros Hc.
    rewrite forallb_forall in Hfits, Hc.
    specialize (Hfits r Hr). specialize (Hc r Hr).
    unfold fits, comparable, has_embedding in *.
    destruct (embedding r) as [e|]; [|discriminate He].
    apply Nat.eqb_eq in Hfits, Hc. congruence. }
  split.
  - intros H. inversion H as [Hbad|ordered Hne Hall]; subst;
      [reflexivity | simpl in Hall; congruence].
  - intros ->. apply query_raises. right. exact Hc.
Qed.

Lemma migrated_table_refuses_other_query_lengths_example :
  let t := {| dimension := None;
              rows := [storyboard 1 "A" (Some (repeat 1%Q 1536))] |} in
  let t' := {| dimension := Some 1536%nat; rows := rows t |} in
  sql_query t' [1; 0]%Q 3 (Raise DatabaseError)
  <-> @Raise (list Hit) DatabaseError = Raise DatabaseError.
Proof.
  intros t t'.
  apply (migrated_table_refuses_other_query_lengths t t' [1; 0]%Q 3).
  - vm_compute. reflexivity.
  - vm_compute. discriminate.
  - exists (storyboard 1 "A" (Some (repeat 1%Q 1536))).
    split; [left; reflexivity | reflexivity].
Defined.

Lemma print_rows_outcome (hits : list Hit) :
  snd (print_rows hits)
  = if forallb scored hits then None else Some TypeError.
Proof.
  induction hits as [|row rest IH]; [reflexivity|].
  simpl. unfold scored at 1. destruct (similarity row); [|reflexivity].
  destruct (print_rows rest) as [lines e]. exact IH.
Qed.

Lemma report_outcome (hits : list Hit) :
  snd (report hits) = snd (print_rows hits).
Proof.
  destruct hits as [|row rest]; [reflexivity|]. unfold report.
  destruct (print_rows (row :: rest)) as [lines [e|]]; reflexivity.
Qed.

Lemma scored_select (q : vector) (l : list StoryboardRecord) :
  forallb scored (map (select q) l) = forallb has_embedding l.
Proof.
  induction l as [|r l IH]; [reflexivity|]. simpl. rewrite IH. f_equal.
  unfold scored, select, distance, has_embedding. simpl.
  destruct (embedding r); reflexivity.
Qed.

(** In an ascending answer no row with an embedding follows one without. *)
Lemma sorted_without_embedding (q : vector) (l : list StoryboardRecord) :
  forall a : StoryboardRecord,
    Sorted (closer q) (a :: l) -> has_embedding a = false ->
    count_embedded (a :: l) = O.
Proof.
  unfold count_embedded.
  induction l as [|b l IH]; intros a Hs Ha; simpl; rewrite Ha;
    [reflexivity|].
  apply Sorted_inv in Hs. destruct Hs as [Hs Hhd].
  apply HdRel_inv in Hhd. apply (IH b Hs).
  unfold closer, distance, has_embedding in *.
  destruct (embedding a); [discriminate Ha|].
  destruct (embedding b); [destruct Hhd | reflexivity].
Qed.

Lemma first_rows_embedded (q : vector) (l : list StoryboardRecord) :
  Sorted (closer q) l ->
  forall k : nat,
    forallb has_embedding (firstn k l) = true
    <-> (Nat.min k (length l) <= count_embedded l)%nat.
Proof.
  induction l as [|a l IH]; intros Hs k.
  - rewrite firstn_nil. simpl. rewrite Nat.min_0_r. split; [lia | reflexivity].
  - destruct k as [|k]; [simpl; split; [lia | reflexivity]|].
    destruct (has_embedding a) eqn:Ha.
    + simpl firstn. simpl forallb. rewrite Ha. simpl andb.
      unfold count_embedded. simpl List.filter. rewrite Ha. simpl length.
      rewrite <- Nat.succ_min_distr, <- Nat.succ_le_mono.
      apply IH. apply Sorted_inv in Hs. apply Hs.
    + rewrite (sorted_without_embedding q l a Hs Ha).
      simpl. rewrite Ha. simpl. split; [discriminate | lia].
Qed.

Lemma count_embedded_permutation (l l' : list StoryboardRecord) :
  Permutation l l' -> count_embedded l = count_embedded l'.
Proof.
  unfold count_embedded.
  induction 1 as [|x l l' _ IH|x y l|l l' l'' _ IH1 _ IH2]; simpl.
  - reflexivity.
  - destruct (has_embedding x); simpl; rewrite IH; reflexivity.
  - destruct (has_embedding x), (has_embedding y); reflexivity.
  - congruence.
Qed.

(** X23.  The script always comes to an end, and how it ends does not
    depend on the order the database gives to rows at one distance.  It
    ends without an exception exactly when the query text was embedded,
    the statement ran, and as many rows have an embedding as the script
    prints (three, or every row of a smaller table).  When fewer have
    one, the format of the score meets a row without score and the
    script ends in a [TypeError]. *)
Theorem script_outcome_is_decided_by_embeddings
        (service : Reindex.Embedder) (t : Table) :
  (exists out, test_vector_search service t out)
  /\ forall out,
      test_vector_search service t out ->
      (snd out = None
       <-> exists q,
             service (JStr search_query_text) = Some q
             /\ q <> []
             /\ forallb (comparable q) (rows t) = true
             /\ (Nat.min 3 (length (rows t)) <= count_embedded (rows t))%nat)
      /\ (snd out = Some TypeError
          <-> exists q,
                service (JStr search_query_text) = Some q
                /\ q <> []
                /\ forallb (comparable q) (rows t) = true
                /\ (count_embedded (rows t)
                    < Nat.min 3 (length (rows t)))%nat).
Proof.
  split.
  - destruct (service (JStr search_query_text)) as [q|] eqn:Hs.
    + pose proof (scan_and_sort_answers t q top_k) as Hq.
      destruct (scan_and_sort t q top_k) as [hits|e].
      * eexists. exact (search_reports service t q hits Hs Hq).
      * eexists. exact (search_query_raises service t q e Hs Hq).
    + eexists. exact (search_no_embedding service t Hs).
  - intros out H.
    inversion H as [Hs|qv e Hs Hq|qv hits Hs Hq]; subst; cbn [snd].
    + split; split; try discriminate;
        intros (q' & Hs' & _); congruence.
    + inversion Hq as [Hbad|]; subst.
      split; split; try discriminate;
        intros (q' & Hs' & Hne & Hc & _);
        assert (q' = qv) as -> by congruence;
        destruct Hbad; congruence.
    + destruct (answer_inv _ _ _ _ Hq) as (l & Hne & Hc & Hp & Hsort & ->).
      rewrite report_outcome, print_rows_outcome, scored_select.
      pose proof (first_rows_embedded qv l Hsort top_k) as Hk.
      rewrite <- (Permutation_length Hp) in Hk.
      rewrite <- (count_embedded_permutation _ _ Hp) in Hk.
      change top_k with 3%nat in *.
      destruct (forallb has_embedding (firstn 3 l)).
      * assert (Hle : (Nat.min 3 (length (rows t))
                       <= count_embedded (rows t))%nat)
          by (apply Hk; reflexivity).
        split; split; intros Hx; try discriminate Hx; try reflexivity.
        -- exists qv. auto.
        -- destruct Hx as (q' & _ & _ & _ & Hx). lia.
      * assert (Hlt : (count_embedded (rows t)
                       < Nat.min 3 (length (rows t)))%nat).
        { apply Nat.nle_gt. intros Hle. apply Hk in Hle. discriminate Hle. }
        split; split; intros Hx; try discriminate Hx; try reflexivity.
        -- destruct Hx as (q' & _ & _ & _ & Hx). lia.
        -- exists qv. auto.
Qed.

Lemma script_outcome_is_decided_by_embeddings_example :
  let a := storyboard 1 "A" (Some [1; 0]%Q) in
  let b := storyboard 2 "B" None in
  let t := {| dimension := None; rows := [a; b] |} in
  let service := always [1; 0]%Q in
  let hits := map (select [1; 0]%Q) [a; b] in
  let out := (([Announce; Embedded; Querying] ++ fst (report hits))%list,
              snd (report hits)) in
  snd out = Some TypeError
  /\ (snd out = None
      <-> exists q,
            service (JStr search_query_text) = Some q
            /\ q <> []
            /\ forallb (comparable q) (rows t) = true
            /\ (Nat.min 3 (length (rows t)) <= count_embedded (rows t))%nat)
  /\ (snd out = Some TypeError
      <-> exists q,
            service (JStr search_query_text) = Some q
            /\ q <> []
            /\ forallb (comparable q) (rows t) = true
            /\ (count_embedded (rows t)
                < Nat.min 3 (length (rows t)))%nat).
Proof.
  intros a b t service hits out. split; [reflexivity|].
  apply (proj2 (script_outcome_is_decided_by_embeddings service t) out).
  apply (search_reports service t [1; 0]%Q hits); [reflexivity|].
  apply (query_returns t _ 3 [a; b]); [discriminate | reflexivity | reflexivity |].
  apply Sorted_cons; [apply Sorted_cons; constructor|].
  apply HdRel_cons. exact I.
Defined.

End QueryAlgebra.

(** ** Two more edges *)

Section MoreEdges.

Import Json Converter Reindex.

(** X24.  A record whose content is not a JSON object has no [get]: the
    run ends with an exception when it is reached, if not before, and
    nothing of the run is committed. *)
Theorem content_without_get_commits_nothing
        (service : Embedder) (stop : option nat) (t : Table)
        (r : StoryboardRecord) (e : exn) :
  In r (rows t) ->
  text_to_embed r = Raise e ->
  outcome (migrate_embeddings service stop t) <> None
  /\ table (migrate_embeddings service stop t) = t.
Proof.
  intros Hin Hget. unfold migrate_embeddings.
  destruct (reindex_loop service stop _ _) as [p o] eqn:Hloop. simpl.
  destruct o as [o|]; [split; [discriminate | reflexivity]|].
  exfalso.
  pose proof (loop_success_embeddable service _ _ _ _ Hloop) as Hall.
  rewrite List.Forall_forall in Hall.
  destruct (Hall r Hin) as (x & Hget' & _). congruence.
Qed.

Lemma content_without_get_commits_nothing_example :
  let r := {| id := 1; content := JArr []; embedding := None;
              embeddingSchemeVersion := None |} in
  let t := {| dimension := None; rows := [storyboard 2 "B" None; r] |} in
  outcome (migrate_embeddings (always [1%Q]) None t) <> None
  /\ table (migrate_embeddings (always [1%Q]) None t) = t.
Proof.
  intros r t.
  apply (content_without_get_commits_nothing (always [1%Q]) None t r
           AttributeError);
    [right; left; reflexivity | reflexivity].
Defined.

(** X25.  A reply that is a JSON document with blanks around it (spaces,
    tabs, newlines, carriage returns) is decoded at the first attempt,
    to the document: nothing is stripped and there is no retry. *)
Theorem padded_reply_needs_no_retry (l s r : string) (v : json) :
  forallb is_ws (Text.chars l) = true ->
  forallb is_ws (Text.chars r) = true ->
  loads s = Some v ->
  decode_reply (l ++ s ++ r) = ([l ++ s ++ r], Ok v).
Proof.
  intros Hl Hr Hs. unfold decode_reply.
  assert (H : loads (l ++ s ++ r) = Some v).
  { unfold loads in *. rewrite !chars_app.
    rewrite lex_blank_l by exact Hl. rewrite lex_blank_r by exact Hr.
    exact Hs. }
  rewrite H. reflexivity.
Qed.

Lemma padded_reply_needs_no_retry_example :
  decode_reply ((" " ++ nl) ++ "[1]" ++ nl)
  = ([(" " ++ nl) ++ "[1]" ++ nl], Ok (JArr [JNum 1])).
Proof.
  apply (padded_reply_needs_no_retry (" " ++ nl) "[1]" nl (JArr [JNum 1]));
    reflexivity.
Defined.

End MoreEdges.
